(** * varro-middleware: the matching and persistence engine of [src/index.js]

    A shallow embedding of the [VarroMiddleware] class and of the host
    library functions it calls (RegExp, String.prototype.replace,
    URLSearchParams, JSON, path, crypto MD5, Date), followed by the
    properties of the specification checked against it.

    Conventions.  A JavaScript string is a [string]; each character stands
    for one code unit below 256 (the Latin-1 range), which covers request
    lines, header names and recording file names; a string with a code unit
    above U+00FF, an unpaired surrogate included, has no counterpart here.
    A Number is the integer it holds, in [Z]: the integers below 2^53 in
    magnitude and the larger ones that a double holds; a Number with a
    fraction has no counterpart.  Paths follow the POSIX flavour of the
    [path] module and files are reached without symbolic links.  *)

From Stdlib Require Import Bool Arith ZArith Lia List Permutation Sorted Ascii String.
Import ListNotations.
Local Open Scope string_scope.

(** ** Strings *)

Module Str.

Definition code (c : ascii) : nat := nat_of_ascii c.

Definition in_range (lo hi : nat) (c : ascii) : bool :=
  (lo <=? code c)%nat && (code c <=? hi)%nat.

Definition is_digit (c : ascii) : bool := in_range 48 57 c.
Definition is_upper (c : ascii) : bool := in_range 65 90 c.
Definition is_lower (c : ascii) : bool := in_range 97 122 c.
Definition is_alnum (c : ascii) : bool := is_digit c || is_upper c || is_lower c.

(** [String.prototype.toLowerCase] on code units below 256: the ASCII
    capitals and the Latin-1 capitals U+00C0..U+00DE, the multiplication
    sign U+00D7 excepted. *)
Definition lower_char (c : ascii) : ascii :=
  if is_upper c || (in_range 192 222 c && negb (code c =? 215)%nat)
  then ascii_of_nat (code c + 32) else c.

Fixpoint toLowerCase (s : string) : string :=
  match s with
  | EmptyString => EmptyString
  | String c t => String (lower_char c) (toLowerCase t)
  end.

Fixpoint all (p : ascii -> bool) (s : string) : bool :=
  match s with
  | EmptyString => true
  | String c t => p c && all p t
  end.

(** [Array.prototype.join]. *)
Fixpoint join (sep : string) (l : list string) : string :=
  match l with
  | [] => EmptyString
  | [x] => x
  | x :: t => x ++ sep ++ join sep t
  end.

Definition is_empty (s : string) : bool :=
  match s with EmptyString => true | _ => false end.

(** [s.startsWith(p)] together with what follows the prefix. *)
Fixpoint strip_prefix (p s : string) : option string :=
  match p, s with
  | EmptyString, _ => Some s
  | String a p', String b s' => if Ascii.eqb a b then strip_prefix p' s' else None
  | _, EmptyString => None
  end.

Fixpoint rev_onto (s acc : string) : string :=
  match s with
  | EmptyString => acc
  | String c t => rev_onto t (String c acc)
  end.

Definition rev (s : string) : string := rev_onto s EmptyString.

(** [s.endsWith(suffix)]. *)
Definition endsWith (s suffix : string) : bool :=
  match strip_prefix (rev suffix) (rev s) with Some _ => true | None => false end.

(** An occurrence of [c] in [s]. *)
Fixpoint mem (c : ascii) (s : string) : bool :=
  match s with
  | EmptyString => false
  | String d t => Ascii.eqb c d || mem c t
  end.

(** Decimal digits of a number, most significant first.  The fuel is the
    binary size of the number, which bounds its count of decimal digits. *)
Definition digit_of (n : N) : ascii := ascii_of_N (48 + n mod 10).

Fixpoint digits_fuel (fuel : nat) (n : N) (acc : string) : string :=
  match fuel with
  | O => acc
  | S fuel' =>
      let acc' := String (digit_of n) acc in
      if (n <? 10)%N then acc' else digits_fuel fuel' (n / 10) acc'
  end.

Definition of_N (n : N) : string := digits_fuel (S (N.size_nat n)) n EmptyString.

Definition of_nat (n : nat) : string := of_N (N.of_nat n).

(** The decimal numeral of an integer: what [Number.prototype.toString]
    gives below 2^53 in magnitude, the range of clock readings and
    counters. *)
Definition of_Z (z : Z) : string :=
  match z with
  | Zneg p => String "-" (of_N (Npos p))
  | _ => of_N (Z.to_N z)
  end.

Fixpoint repeat (c : ascii) (n : nat) : string :=
  match n with
  | O => EmptyString
  | S n' => String c (repeat c n')
  end.

(** [s.padStart(width, c)] for a one-character filler. *)
Definition padStart (width : nat) (c : ascii) (s : string) : string :=
  repeat c (width - length s) ++ s.

(** Lexicographic order on code units: the order of [Array.prototype.sort]
    without a comparator. *)
Fixpoint ltb (a b : string) : bool :=
  match a, b with
  | _, EmptyString => false
  | EmptyString, String _ _ => true
  | String x a', String y b' =>
      if (code x <? code y)%nat then true
      else if (code y <? code x)%nat then false
      else ltb a' b'
  end.

End Str.

(** ** Numbers *)

Module Number.

Local Open Scope Z_scope.

(** The integers that a double holds exactly are those below 2^53 in
    magnitude and, above, the multiples of the power of two that brings
    them back to 53 bits. *)
Definition two53 : Z := 9007199254740992.

(** The exponent of the unit in the last place of [x], for [x] at least
    2^52. *)
Definition ulp_exponent (x : Z) : Z := Z.log2 x - 52.

(** The Number value of the integer [z]: [z] itself when a double holds it,
    the nearest double otherwise, ties going to the even significand. *)
Definition nearest (z : Z) : Z :=
  let x := Z.abs z in
  if x <? two53 then z
  else
    let e := ulp_exponent x in
    let q := x / 2 ^ e in
    let r := x mod 2 ^ e in
    let half := 2 ^ (e - 1) in
    let q' := if (half <? r) || ((r =? half) && Z.odd q) then q + 1 else q in
    Z.sgn z * (q' * 2 ^ e).

(** [v] rounds to the double [x], at least 2^53. *)
Definition rounds_to (x v : Z) : bool :=
  let e := ulp_exponent x in
  let m := x / 2 ^ e in
  let above := 2 ^ e in
  let below := if m =? 2 ^ 52 then 2 ^ (e - 1) else 2 ^ e in
  if x <=? v
  then if Z.even m then 2 * (v - x) <=? above else 2 * (v - x) <? above
  else if Z.even m then 2 * (x - v) <=? below else 2 * (x - v) <? below.

(** The count of decimal digits of a positive integer. *)
Definition decimal_length (x : Z) : nat := String.length (Str.of_Z x).

(** The multiple of 10^j that prints the double [x] with the fewest digits:
    the first [k], counted up from one, for which a multiple of
    10^(length - k) rounds to [x], and among the two candidates the closer
    one. *)
Fixpoint shortest_from (count : nat) (k : nat) (x : Z) : Z :=
  match count with
  | O => x
  | S count' =>
      let j := Z.of_nat (decimal_length x - k) in
      let lo := (x / 10 ^ j) * 10 ^ j in
      let hi := lo + 10 ^ j in
      match rounds_to x lo, rounds_to x hi with
      | true, true =>
          if x - lo <? hi - x then lo
          else if hi - x <? x - lo then hi
          else if Z.even (x / 10 ^ j) then lo else hi
      | true, false => lo
      | false, true => hi
      | false, false => shortest_from count' (S k) x
      end
  end.

Definition shortest (x : Z) : Z := shortest_from 17 1 x.

Fixpoint drop_zeros (s : string) : string :=
  match s with
  | String "0"%char t => drop_zeros t
  | _ => s
  end.

(** The digits without their trailing zeros. *)
Definition significant (digits : string) : string :=
  Str.rev (drop_zeros (Str.rev digits)).

(** Number::toString on a positive integer-valued Number. *)
Definition positive_text (x : Z) : string :=
  if x <? two53 then Str.of_Z x
  else
    let digits := Str.of_Z (shortest x) in
    if (String.length digits <=? 21)%nat then digits
    else
      let exponent := Str.of_nat (String.length digits - 1) in
      match significant digits with
      | String d EmptyString => String d ("e+" ++ exponent)
      | String d more => String d ("." ++ more ++ "e+" ++ exponent)
      | EmptyString => digits
      end.

(** Number::toString, radix ten, on an integer-valued Number. *)
Definition toString (z : Z) : string :=
  match z with
  | Z0 => "0"
  | Zpos _ => positive_text z
  | Zneg _ => String "-" (positive_text (- z))
  end.

End Number.


(** ** Regular expressions

    [new RegExp(source)] without flags and [RegExp.prototype.test].  The
    parser follows the ECMAScript pattern grammar with its web-compatibility
    extensions (a brace or closing bracket that cannot be read as syntax is a
    literal).  Three results are possible: a pattern, the SyntaxError that
    the constructor throws, and [Unmodelled] for syntax this development does
    not give a meaning to (back-references, look-around and word-boundary
    assertions, named groups, numeric and control escapes). *)

Module RegExp.

Inductive item : Type :=
| IChar (c : ascii)
| IRange (lo hi : ascii)
| IDigit (neg : bool)
| IWord (neg : bool)
| ISpace (neg : bool).

Inductive regex : Type :=
| Eps
| Chr (c : ascii)
| Dot
| Cls (neg : bool) (items : list item)
| Bol
| Eol
| Seq (r1 r2 : regex)
| Alt (r1 r2 : regex)
| Star (r : regex).

Inductive compiled : Type :=
| Pattern (r : regex)
| SyntaxError
| Unmodelled.

(** *** Matching *)

Definition is_line_terminator (c : ascii) : bool :=
  (Str.code c =? 10)%nat || (Str.code c =? 13)%nat.

Definition is_word (c : ascii) : bool :=
  Str.is_alnum c || (Str.code c =? 95)%nat.

Definition is_space (c : ascii) : bool :=
  Str.in_range 9 13 c || (Str.code c =? 32)%nat || (Str.code c =? 160)%nat.

Definition item_matches (i : item) (c : ascii) : bool :=
  match i with
  | IChar d => Ascii.eqb d c
  | IRange lo hi => Str.in_range (Str.code lo) (Str.code hi) c
  | IDigit neg => xorb neg (Str.is_digit c)
  | IWord neg => xorb neg (is_word c)
  | ISpace neg => xorb neg (is_space c)
  end.

Definition class_matches (neg : bool) (items : list item) (c : ascii) : bool :=
  xorb neg (existsb (fun i => item_matches i c) items).

(** One character consumed by a one-character matcher. *)
Definition eat (p : ascii -> bool) (s : string) (k : bool -> string -> bool) : bool :=
  match s with
  | EmptyString => false
  | String c t => p c && k false t
  end.

(** The iterations of a star.  [step] matches the starred expression once;
    an iteration that consumes nothing is rejected, as in the language
    definition, so the length of the input bounds the number [n] of
    iterations still allowed. *)
Fixpoint iterate (step : bool -> string -> (bool -> string -> bool) -> bool)
                 (k : bool -> string -> bool)
                 (n : nat) (b : bool) (t : string) {struct n} : bool :=
  k b t ||
  match n with
  | O => false
  | S n' =>
      step b t (fun b' t' => (length t' <? length t)%nat && iterate step k n' b' t')
  end.

(** The backtracking matcher in continuation-passing style.  [start] tells
    whether the current position is index 0 of the input, [s] is the input
    from the current position on, and [k] is what has to match afterwards. *)
Fixpoint run (r : regex) (start : bool) (s : string)
             (k : bool -> string -> bool) {struct r} : bool :=
  match r with
  | Eps => k start s
  | Chr c => eat (Ascii.eqb c) s k
  | Dot => eat (fun d => negb (is_line_terminator d)) s k
  | Cls neg items => eat (class_matches neg items) s k
  | Bol => start && k start s
  | Eol => Str.is_empty s && k start s
  | Seq r1 r2 => run r1 start s (fun b t => run r2 b t k)
  | Alt r1 r2 => run r1 start s k || run r2 start s k
  | Star r' => iterate (run r') k (length s) start s
  end.

(** The search of [exec]: try index 0, then every later index. *)
Fixpoint search (r : regex) (start : bool) (s : string) : bool :=
  run r start s (fun _ _ => true) ||
  match s with
  | EmptyString => false
  | String _ t => search r false t
  end.

Definition test (r : regex) (s : string) : bool := search r true s.

(** *** Parsing *)

(** The characters with a syntactic role in a pattern; every other character
    stands for itself. *)
Definition syntax_chars : string := "^$\.*+?()[]{}|".

Definition is_syntax_char (c : ascii) : bool := Str.mem c syntax_chars.

Inductive escaped : Type :=
| EChar (c : ascii)
| ESet (i : item)
| EUnmodelled.

(** The character after a backslash.  [in_class] selects the reading inside
    a character class, where [\b] is the backspace. *)
Definition escape (in_class : bool) (c : ascii) : escaped :=
  match c with
  | "d"%char => ESet (IDigit false)
  | "D"%char => ESet (IDigit true)
  | "w"%char => ESet (IWord false)
  | "W"%char => ESet (IWord true)
  | "s"%char => ESet (ISpace false)
  | "S"%char => ESet (ISpace true)
  | "t"%char => EChar (ascii_of_nat 9)
  | "n"%char => EChar (ascii_of_nat 10)
  | "v"%char => EChar (ascii_of_nat 11)
  | "f"%char => EChar (ascii_of_nat 12)
  | "r"%char => EChar (ascii_of_nat 13)
  | "b"%char => if in_class then EChar (ascii_of_nat 8) else EUnmodelled
  | _ => if Str.is_alnum c then EUnmodelled else EChar c
  end.

Fixpoint mk_seq (l : list regex) : regex :=
  match l with
  | [] => Eps
  | [r] => r
  | r :: t => Seq r (mk_seq t)
  end.

Fixpoint mk_alt (l : list regex) : regex :=
  match l with
  | [] => Eps
  | [r] => r
  | r :: t => Alt r (mk_alt t)
  end.

(** The alternatives read so far in a group (latest first), the terms of the
    alternative being read (latest first), and whether the latest term may
    take a quantifier. *)
Record frame : Type := mkFrame {
  alts : list regex;
  terms : list regex;
  quantifiable : bool
}.

Definition empty_frame : frame := mkFrame [] [] false.

Definition push_atom (r : regex) (f : frame) : frame :=
  mkFrame (alts f) (r :: terms f) true.

Definition push_assertion (r : regex) (f : frame) : frame :=
  mkFrame (alts f) (r :: terms f) false.

Definition next_alternative (f : frame) : frame :=
  mkFrame (mk_seq (List.rev (terms f)) :: alts f) [] false.

Definition close (f : frame) : regex :=
  mk_alt (List.rev (mk_seq (List.rev (terms f)) :: alts f)).

Fixpoint copies (n : nat) (r : regex) (tail : list regex) : list regex :=
  match n with
  | O => tail
  | S n' => r :: copies n' r tail
  end.

Inductive quantifier : Type :=
| QStar
| QPlus
| QOpt
| QBrace (lo : nat) (hi : option nat).

Definition quantified (q : quantifier) (r : regex) : regex :=
  match q with
  | QStar => Star r
  | QPlus => Seq r (Star r)
  | QOpt => Alt r Eps
  | QBrace lo None => mk_seq (copies lo r [Star r])
  | QBrace lo (Some hi) => mk_seq (copies lo r (copies (hi - lo) (Alt r Eps) []))
  end.

Definition well_ordered (q : quantifier) : bool :=
  match q with
  | QBrace lo (Some hi) => (lo <=? hi)%nat
  | _ => true
  end.

(** A quantifier applies to the latest term, which must be an atom that has
    no quantifier yet: otherwise there is nothing to repeat. *)
Definition apply_quantifier (q : quantifier) (f : frame) : option frame :=
  match terms f with
  | r :: rest =>
      if quantifiable f && well_ordered q
      then Some (mkFrame (alts f) (quantified q r :: rest) false)
      else None
  | [] => None
  end.

(** A greedy quantifier may be followed by [?], which makes it lazy; the
    set of matched strings is the same. *)
Definition skip_lazy (s : string) : string :=
  match s with
  | String "?"%char t => t
  | _ => s
  end.

Fixpoint read_nat (s : string) (acc : option nat) : option nat * string :=
  match s with
  | String c t =>
      if Str.is_digit c
      then read_nat t (Some (10 * match acc with Some n => n | None => 0 end
                             + (Str.code c - 48)))
      else (acc, s)
  | EmptyString => (acc, s)
  end.

(** What follows an opening brace, when it reads as [n}], [n,}] or [n,m}]. *)
Definition read_brace (s : string) : option (quantifier * string) :=
  match read_nat s None with
  | (Some lo, String "}"%char t) => Some (QBrace lo (Some lo), t)
  | (Some lo, String ","%char t) =>
      match read_nat t None with
      | (hi, String "}"%char t') =>
          Some (QBrace lo hi, t')
      | _ => None
      end
  | _ => None
  end.

Inductive class_result : Type :=
| ClassOk (items : list item) (rest : string)
| ClassError
| ClassUnmodelled.

Inductive atom_result : Type :=
| AtomOk (i : item) (rest : string)
| AtomError
| AtomUnmodelled.

(** One class atom: a character or an escape. *)
Definition read_class_atom (s : string) : atom_result :=
  match s with
  | EmptyString => AtomError
  | String "\"%char EmptyString => AtomError
  | String "\"%char (String e t) =>
      match escape true e with
      | EChar c => AtomOk (IChar c) t
      | ESet i => AtomOk i t
      | EUnmodelled => AtomUnmodelled
      end
  | String c t => AtomOk (IChar c) t
  end.

(** The contents of a character class up to its closing bracket.  A range
    whose ends are not both single characters stands for its two ends and
    the hyphen. *)
Fixpoint read_class (fuel : nat) (s : string) (acc : list item) : class_result :=
  match fuel with
  | O => ClassError
  | S fuel' =>
      match s with
      | EmptyString => ClassError
      | String "]"%char t => ClassOk (List.rev acc) t
      | _ =>
          match read_class_atom s with
          | AtomError => ClassError
          | AtomUnmodelled => ClassUnmodelled
          | AtomOk a t =>
              match t with
              | String "-"%char (String d t2) =>
                  if Ascii.eqb d "]" then read_class fuel' t (a :: acc)
                  else
                    match read_class_atom (String d t2) with
                    | AtomError => ClassError
                    | AtomUnmodelled => ClassUnmodelled
                    | AtomOk b t3 =>
                        match a, b with
                        | IChar lo, IChar hi =>
                            if (Str.code lo <=? Str.code hi)%nat
                            then read_class fuel' t3 (IRange lo hi :: acc)
                            else ClassError
                        | _, _ =>
                            read_class fuel' t3 (b :: IChar "-" :: a :: acc)
                        end
                    end
              | _ => read_class fuel' t (a :: acc)
              end
          end
      end
  end.

(** The pattern parser: one pass over the source with the stack of enclosing
    groups.  Every step consumes at least one character, so a fuel above the
    length of the source is never used up. *)
Fixpoint parse (fuel : nat) (s : string) (stack : list frame) (f : frame)
  : compiled :=
  match fuel with
  | O => Unmodelled
  | S fuel' =>
      match s with
      | EmptyString =>
          match stack with
          | [] => Pattern (close f)
          | _ :: _ => SyntaxError
          end
      | String c t =>
          if negb (is_syntax_char c) then parse fuel' t stack (push_atom (Chr c) f)
          else if Ascii.eqb c "." then parse fuel' t stack (push_atom Dot f)
          else if Ascii.eqb c "^" then parse fuel' t stack (push_assertion Bol f)
          else if Ascii.eqb c "$" then parse fuel' t stack (push_assertion Eol f)
          else if Ascii.eqb c "|" then parse fuel' t stack (next_alternative f)
          else if Ascii.eqb c "*" then
            match apply_quantifier QStar f with
            | Some f' => parse fuel' (skip_lazy t) stack f'
            | None => SyntaxError
            end
          else if Ascii.eqb c "+" then
            match apply_quantifier QPlus f with
            | Some f' => parse fuel' (skip_lazy t) stack f'
            | None => SyntaxError
            end
          else if Ascii.eqb c "?" then
            match apply_quantifier QOpt f with
            | Some f' => parse fuel' (skip_lazy t) stack f'
            | None => SyntaxError
            end
          else if Ascii.eqb c "{" then
            match read_brace t with
            | Some (q, t') =>
                match apply_quantifier q f with
                | Some f' => parse fuel' (skip_lazy t') stack f'
                | None => SyntaxError
                end
            | None => parse fuel' t stack (push_atom (Chr c) f)
            end
          else if Ascii.eqb c "(" then
            match t with
            | String "?"%char (String ":"%char t') =>
                parse fuel' t' (f :: stack) empty_frame
            | String "?"%char _ => Unmodelled
            | _ => parse fuel' t (f :: stack) empty_frame
            end
          else if Ascii.eqb c ")" then
            match stack with
            | [] => SyntaxError
            | outer :: stack' => parse fuel' t stack' (push_atom (close f) outer)
            end
          else if Ascii.eqb c "[" then
            let (neg, body) :=
              match t with
              | String "^"%char t' => (true, t')
              | _ => (false, t)
              end in
            match read_class (S (length body)) body [] with
            | ClassOk items t' => parse fuel' t' stack (push_atom (Cls neg items) f)
            | ClassError => SyntaxError
            | ClassUnmodelled => Unmodelled
            end
          else if Ascii.eqb c "\" then
            match t with
            | EmptyString => SyntaxError
            | String e t' =>
                match escape false e with
                | EChar d => parse fuel' t' stack (push_atom (Chr d) f)
                | ESet i => parse fuel' t' stack (push_atom (Cls false [i]) f)
                | EUnmodelled => Unmodelled
                end
            end
          else parse fuel' t stack (push_atom (Chr c) f)
      end
  end.

(** [new RegExp(source)]. *)
Definition compile (source : string) : compiled :=
  parse (S (length source)) source [] empty_frame.

(** *** What a pattern matches

    [Matches r b s rest]: the expression [r] matches the text [s] at a
    position that is index 0 of the input exactly when [b] holds, with
    [rest] following the match. *)

Definition after (b : bool) (s : string) : bool := b && Str.is_empty s.

Inductive Matches : regex -> bool -> string -> string -> Prop :=
| MEps b rest : Matches Eps b EmptyString rest
| MChr c b rest : Matches (Chr c) b (String c EmptyString) rest
| MDot d b rest :
    is_line_terminator d = false -> Matches Dot b (String d EmptyString) rest
| MCls neg items d b rest :
    class_matches neg items d = true ->
    Matches (Cls neg items) b (String d EmptyString) rest
| MBol rest : Matches Bol true EmptyString rest
| MEol b : Matches Eol b EmptyString EmptyString
| MSeq r1 r2 b s1 s2 rest :
    Matches r1 b s1 (s2 ++ rest) ->
    Matches r2 (after b s1) s2 rest ->
    Matches (Seq r1 r2) b (s1 ++ s2) rest
| MAltL r1 r2 b s rest : Matches r1 b s rest -> Matches (Alt r1 r2) b s rest
| MAltR r1 r2 b s rest : Matches r2 b s rest -> Matches (Alt r1 r2) b s rest
| MStarStop r b rest : Matches (Star r) b EmptyString rest
| MStarStep r b s1 s2 rest :
    Matches r b s1 (s2 ++ rest) ->
    Matches (Star r) (after b s1) s2 rest ->
    Matches (Star r) b (s1 ++ s2) rest.

(** What a continuation-passing matcher for [r] has to compute. *)
Definition computes (r : regex)
           (m : bool -> string -> (bool -> string -> bool) -> bool) : Prop :=
  forall b s k,
    m b s k = true <->
    exists s1 s2, s = s1 ++ s2 /\ Matches r b s1 s2 /\ k (after b s1) s2 = true.

(** The pattern matches somewhere in [s]: some part [mid] of the input. *)
Definition MatchesWithin (r : regex) (s : string) : Prop :=
  exists pre mid post,
    s = pre ++ mid ++ post /\ Matches r (Str.is_empty pre) mid post.

End RegExp.

(** ** String.prototype.replace with a global literal pattern

    [s.replace(/needle/g, template)] for a pattern without metacharacters:
    every occurrence met from left to right is replaced, and the replacement
    text is the template with its dollar patterns expanded. *)

Module Replace.

(** GetSubstitution for a match without captures: [$$] is a dollar sign,
    [$&] the match, [$`] the text before it and [$'] the text after it; any
    other dollar sign stands for itself. *)
Fixpoint substitution (matched before after template : string) : string :=
  match template with
  | EmptyString => EmptyString
  | String "$"%char (String "$"%char t) =>
      String "$" (substitution matched before after t)
  | String "$"%char (String "&"%char t) =>
      matched ++ substitution matched before after t
  | String "$"%char (String "`"%char t) =>
      before ++ substitution matched before after t
  | String "$"%char (String "'"%char t) =>
      after ++ substitution matched before after t
  | String c t => String c (substitution matched before after t)
  end.

(** [before] is the part of the subject already passed, [s] what is left. *)
Fixpoint replace_from (fuel : nat) (needle template before s : string) : string :=
  match fuel with
  | O => s
  | S fuel' =>
      match Str.strip_prefix needle s with
      | Some after =>
          substitution needle before after template
          ++ replace_from fuel' needle template (before ++ needle) after
      | None =>
          match s with
          | EmptyString => EmptyString
          | String c t =>
              String c (replace_from fuel' needle template
                          (before ++ String c EmptyString) t)
          end
      end
  end.

(** The needle is never empty in the callers. *)
Definition replace_all (needle template s : string) : string :=
  replace_from (S (length s)) needle template EmptyString s.

End Replace.

(** ** JSON values *)

Module JSON.

Local Set Warnings "-register-all".

(** A JSON value; an object keeps its properties in enumeration order.
    A number is an integer that a double holds. *)
Inductive json : Type :=
| JNull
| JBool (b : bool)
| JNum (z : Z)
| JStr (s : string)
| JArr (items : list json)
| JObj (fields : list (string * json)).

(** ToBoolean, as applied by [filter(Boolean)] and by [if (value)]. *)
Definition truthy (j : json) : bool :=
  match j with
  | JNull => false
  | JBool b => b
  | JNum z => negb (z =? 0)%Z
  | JStr s => negb (Str.is_empty s)
  | JArr _ => true
  | JObj _ => true
  end.

Fixpoint lookup (key : string) (fields : list (string * json)) : option json :=
  match fields with
  | [] => None
  | (k, v) :: rest => if String.eqb k key then Some v else lookup key rest
  end.

(** [value.key]: only an object has own properties with such names. *)
Definition get (j : json) (key : string) : option json :=
  match j with
  | JObj fields => lookup key fields
  | _ => None
  end.

(** An element of an array under [Array.prototype.join]. *)
Definition element_text (text : json -> string) (j : json) : string :=
  match j with
  | JNull => EmptyString
  | _ => text j
  end.

(** ToString on a value. *)
Fixpoint ToString (j : json) : string :=
  match j with
  | JNull => "null"
  | JBool true => "true"
  | JBool false => "false"
  | JNum z => Number.toString z
  | JStr s => s
  | JArr items => Str.join "," (List.map (element_text ToString) items)
  | JObj _ => "[object Object]"
  end.

Definition hex_digit (n : nat) : ascii :=
  if (n <? 10)%nat then ascii_of_nat (48 + n) else ascii_of_nat (87 + n).

Definition dquote : ascii := ascii_of_nat 34.

(** QuoteJSONString, one code unit at a time. *)
Definition quote_char (c : ascii) : string :=
  let n := Str.code c in
  if (n =? 34)%nat then String "\" (String dquote EmptyString)
  else if (n =? 92)%nat then "\\"
  else if (n =? 8)%nat then "\b"
  else if (n =? 9)%nat then "\t"
  else if (n =? 10)%nat then "\n"
  else if (n =? 12)%nat then "\f"
  else if (n =? 13)%nat then "\r"
  else if (n <? 32)%nat then
    "\u00" ++ String (hex_digit (n / 16)) (String (hex_digit (n mod 16)) EmptyString)
  else String c EmptyString.

Fixpoint quote_body (s : string) : string :=
  match s with
  | EmptyString => EmptyString
  | String c t => quote_char c ++ quote_body t
  end.

Definition quote (s : string) : string :=
  String dquote (quote_body s ++ String dquote EmptyString).

(** [JSON.stringify(value)] without indentation. *)
Fixpoint stringify (j : json) : string :=
  match j with
  | JNull => "null"
  | JBool true => "true"
  | JBool false => "false"
  | JNum z => Number.toString z
  | JStr s => quote s
  | JArr items => "[" ++ Str.join "," (List.map stringify items) ++ "]"
  | JObj fields =>
      "{" ++ Str.join ","
               (List.map (fun kv => match kv with
                                    | (k, v) => quote k ++ ":" ++ stringify v
                                    end) fields)
          ++ "}"
  end.

(** *** [JSON.parse]

    A text is read to a value, is refused (the SyntaxError of the source),
    or denotes a value that [json] does not hold: a number that is not an
    integer, a character above U+00FF. *)
Inductive reading (A : Type) : Type :=
| Read (a : A) (rest : string)
| Refused
| Unrepresented.

Arguments Read {A} a rest.
Arguments Refused {A}.
Arguments Unrepresented {A}.

Definition is_whitespace (c : ascii) : bool :=
  let n := Str.code c in
  (n =? 32)%nat || (n =? 9)%nat || (n =? 10)%nat || (n =? 13)%nat.

Fixpoint skip_space (s : string) : string :=
  match s with
  | String c t => if is_whitespace c then skip_space t else s
  | EmptyString => s
  end.

(** The digits at the head of [s], their count and their value after
    [acc]. *)
Fixpoint read_digits (s : string) (count : nat) (acc : Z) : nat * Z * string :=
  match s with
  | String c t =>
      if Str.is_digit c
      then read_digits t (S count) (10 * acc + Z.of_nat (Str.code c - 48))%Z
      else (count, acc, s)
  | EmptyString => (count, acc, s)
  end.

Definition hex_digit_value (c : ascii) : option Z :=
  let n := Str.code c in
  if Str.is_digit c then Some (Z.of_nat (n - 48))
  else if (65 <=? n)%nat && (n <=? 70)%nat then Some (Z.of_nat (n - 55))
  else if (97 <=? n)%nat && (n <=? 102)%nat then Some (Z.of_nat (n - 87))
  else None.

(** The characters of a string literal after its opening quote. *)
Fixpoint read_string (s : string) (acc : string) : reading string :=
  match s with
  | EmptyString => Refused
  | String c t =>
      if (Str.code c =? 34)%nat then Read (Str.rev acc) t
      else if (Str.code c <? 32)%nat then Refused
      else if (Str.code c =? 92)%nat then
        match t with
        | String e t' =>
            let plain (d : nat) := read_string t' (String (ascii_of_nat d) acc) in
            match e with
            | "\"%char => plain 92%nat
            | "/"%char => plain 47%nat
            | "b"%char => plain 8%nat
            | "f"%char => plain 12%nat
            | "n"%char => plain 10%nat
            | "r"%char => plain 13%nat
            | "t"%char => plain 9%nat
            | "u"%char =>
                match t' with
                | String a (String b (String c' (String d t''))) =>
                    match hex_digit_value a, hex_digit_value b, hex_digit_value c', hex_digit_value d with
                    | Some va, Some vb, Some vc, Some vd =>
                        if ((va =? 0) && (vb =? 0))%Z
                        then read_string t''
                               (String (ascii_of_nat (Z.to_nat (16 * vc + vd))) acc)
                        else
                          match read_string t'' acc with
                          | Refused => Refused
                          | _ => Unrepresented
                          end
                    | _, _, _, _ => Refused
                    end
                | _ => Refused
                end
            | _ => if (Str.code e =? 34)%nat then plain 34%nat else Refused
            end
        | EmptyString => Refused
        end
      else read_string t (String c acc)
  end.

(** A number literal: an optional minus sign, digits without a leading zero,
    an optional fraction, an optional exponent.  Its value is kept when it
    is an integer that a double holds without overflow. *)
Definition read_number (s : string) : reading json :=
  let (negative, s1) :=
    match s with
    | String "-"%char t => (true, t)
    | _ => (false, s)
    end in
  match s1 with
  | String c _ =>
      if negb (Str.is_digit c) then Refused
      else
        let '(icount, ivalue, s2) := read_digits s1 0 0%Z in
        if (1 <? icount)%nat && (Str.code c =? 48)%nat then
          (* a leading zero ends the integer part: what follows is refused
             by the caller *)
          match s1 with
          | String _ t => Read (JNum 0) t
          | EmptyString => Refused
          end
        else
          let frac :=
            match s2 with
            | String "."%char t =>
                let '(fcount, fvalue, s3) := read_digits t 0 ivalue in
                if (fcount =? 0)%nat then None else Some (fcount, fvalue, s3)
            | _ => Some (0%nat, ivalue, s2)
            end in
          match frac with
          | None => Refused
          | Some (fcount, mantissa, s3) =>
              let exponent :=
                match s3 with
                | String e t =>
                    if (Str.code e =? 101)%nat || (Str.code e =? 69)%nat then
                      let (esign, t') :=
                        match t with
                        | String "-"%char u => (true, u)
                        | String "+"%char u => (false, u)
                        | _ => (false, t)
                        end in
                      let '(ecount, evalue, s4) := read_digits t' 0 0%Z in
                      if (ecount =? 0)%nat then None
                      else Some (if esign then (- evalue)%Z else evalue, s4)
                    else Some (0%Z, s3)
                | EmptyString => Some (0%Z, s3)
                end in
              match exponent with
              | None => Refused
              | Some (evalue, rest) =>
                  let scale := (evalue - Z.of_nat fcount)%Z in
                  if (mantissa =? 0)%Z then Read (JNum 0) rest
                  else if (400 <? Z.abs scale)%Z then Unrepresented
                  else if (0 <=? scale)%Z then
                    let value := (mantissa * 10 ^ scale)%Z in
                    if (Z.log2 value <? 1023)%Z
                    then Read (JNum (Number.nearest
                                       (if negative then (- value)%Z else value))) rest
                    else Unrepresented
                  else if (mantissa mod 10 ^ (- scale) =? 0)%Z then
                    let value := (mantissa / 10 ^ (- scale))%Z in
                    Read (JNum (Number.nearest
                                  (if negative then (- value)%Z else value))) rest
                  else Unrepresented
              end
          end
  | EmptyString => Refused
  end.

(** An array index: the canonical numeral of an integer below 2^32 - 1. *)
Definition array_index (key : string) : option Z :=
  match key with
  | EmptyString => None
  | String c t =>
      let '(count, value, rest) := read_digits key 0 0%Z in
      if negb (match rest with EmptyString => true | _ => false end) then None
      else if (Str.code c =? 48)%nat && negb (match t with EmptyString => true | _ => false end)
      then None
      else if (value <? 4294967295)%Z then Some value else None
  end.

Fixpoint redefine (key : string) (v : json) (fields : list (string * json))
  : option (list (string * json)) :=
  match fields with
  | [] => None
  | (k, w) :: rest =>
      if String.eqb k key then Some ((k, v) :: rest)
      else match redefine key v rest with
           | Some rest' => Some ((k, w) :: rest')
           | None => None
           end
  end.

(** The place of a new array index among the properties: after the smaller
    indices, before everything else. *)
Fixpoint insert_index (i : Z) (key : string) (v : json) (fields : list (string * json))
  : list (string * json) :=
  match fields with
  | [] => [(key, v)]
  | (k, w) :: rest =>
      match array_index k with
      | Some j => if (j <? i)%Z then (k, w) :: insert_index i key v rest
                  else (key, v) :: fields
      | None => (key, v) :: fields
      end
  end.

(** CreateDataProperty on the object under construction, its properties
    kept in enumeration order: a name already there keeps its place, a new
    array index goes among the indices in ascending order, any other new
    name goes last. *)
Definition define (key : string) (v : json) (fields : list (string * json))
  : list (string * json) :=
  match redefine key v fields with
  | Some fields' => fields'
  | None =>
      match array_index key with
      | Some i => insert_index i key v fields
      | None => (fields ++ [(key, v)])%list
      end
  end.

Definition literal (word : string) (v : json) (s : string) : reading json :=
  match Str.strip_prefix word s with
  | Some rest => Read v rest
  | None => Refused
  end.

(** One value, then the elements of an array after its bracket or a comma,
    then the members of an object likewise.  Each call consumes fuel; a
    text never needs more than three units for each of its characters. *)
Fixpoint read_value (fuel : nat) (s : string) : reading json :=
  match fuel with
  | O => Unrepresented
  | S fuel' =>
      match skip_space s with
      | EmptyString => Refused
      | String c t =>
          if (Str.code c =? 34)%nat then
            match read_string t EmptyString with
            | Read text rest => Read (JStr text) rest
            | Refused => Refused
            | Unrepresented => Unrepresented
            end
          else
            match c with
            | "["%char =>
                match skip_space t with
                | String "]"%char rest => Read (JArr []) rest
                | _ =>
                    match read_elements fuel' t [] with
                    | Read items rest => Read (JArr items) rest
                    | Refused => Refused
                    | Unrepresented => Unrepresented
                    end
                end
            | "{"%char =>
                match skip_space t with
                | String "}"%char rest => Read (JObj []) rest
                | _ =>
                    match read_members fuel' t [] with
                    | Read fields rest => Read (JObj fields) rest
                    | Refused => Refused
                    | Unrepresented => Unrepresented
                    end
                end
            | "t"%char => literal "true" (JBool true) (String c t)
            | "f"%char => literal "false" (JBool false) (String c t)
            | "n"%char => literal "null" JNull (String c t)
            | _ => read_number (String c t)
            end
      end
  end
with read_elements (fuel : nat) (s : string) (acc : list json) : reading (list json) :=
  match fuel with
  | O => Unrepresented
  | S fuel' =>
      match read_value fuel' s with
      | Read v rest =>
          match skip_space rest with
          | String ","%char rest' => read_elements fuel' rest' (acc ++ [v])%list
          | String "]"%char rest' => Read (acc ++ [v])%list rest'
          | _ => Refused
          end
      | Refused => Refused
      | Unrepresented => Unrepresented
      end
  end
with read_members (fuel : nat) (s : string) (acc : list (string * json))
  : reading (list (string * json)) :=
  match fuel with
  | O => Unrepresented
  | S fuel' =>
      match skip_space s with
      | String q t =>
          if (Str.code q =? 34)%nat then
            match read_string t EmptyString with
            | Read key rest =>
                match skip_space rest with
                | String ":"%char rest' =>
                    match read_value fuel' rest' with
                    | Read v rest'' =>
                        match skip_space rest'' with
                        | String ","%char more =>
                            read_members fuel' more (define key v acc)
                        | String "}"%char more => Read (define key v acc) more
                        | _ => Refused
                        end
                    | Refused => Refused
                    | Unrepresented => Unrepresented
                    end
                | _ => Refused
                end
            | Refused => Refused
            | Unrepresented => Unrepresented
            end
          else Refused
      | EmptyString => Refused
      end
  end.

Inductive parsed : Type :=
| Parsed (v : json)
| Rejected
| Unrepresentable.

(** [JSON.parse(text)]. *)
Definition parse (text : string) : parsed :=
  match read_value (3 * String.length text + 3) text with
  | Read v rest =>
      match skip_space rest with
      | EmptyString => Parsed v
      | _ => Rejected
      end
  | Refused => Rejected
  | Unrepresented => Unrepresentable
  end.

(** [JSON.parse] as a caller sees it that only tells a value from an
    exception, on the texts whose value [json] holds. *)
Definition parse_or_throw (text : string) : option json :=
  match parse text with
  | Parsed v => Some v
  | _ => None
  end.

End JSON.

(** ** Bytes: UTF-8, form encoding, MD5 *)

Module Bytes.

Local Open Scope Z_scope.

(** The UTF-8 encoding of a string of code units below 256. *)
Fixpoint utf8 (s : string) : list Z :=
  match s with
  | EmptyString => []
  | String c t =>
      let n := Z.of_nat (Str.code c) in
      if (n <? 128)%Z then n :: utf8 t
      else Z.lor 192 (Z.shiftr n 6) :: Z.lor 128 (Z.land n 63) :: utf8 t
  end.

Definition upper_hex (n : Z) : ascii :=
  if (n <? 10)%Z then ascii_of_nat (Z.to_nat (48 + n))
  else ascii_of_nat (Z.to_nat (55 + n)).

Definition lower_hex (n : Z) : ascii :=
  if (n <? 10)%Z then ascii_of_nat (Z.to_nat (48 + n))
  else ascii_of_nat (Z.to_nat (87 + n)).

Definition between (lo hi b : Z) : bool := (lo <=? b)%Z && (b <=? hi)%Z.

(** The application/x-www-form-urlencoded byte serializer: a space becomes a
    plus sign, letters, digits and [*-._] stay, any other byte is
    percent-encoded with capital hexadecimal digits. *)
Definition form_byte (b : Z) : string :=
  if (b =? 32)%Z then "+"
  else if (b =? 42)%Z || (b =? 45)%Z || (b =? 46)%Z || (b =? 95)%Z
          || between 48 57 b || between 65 90 b || between 97 122 b
  then String (ascii_of_nat (Z.to_nat b)) EmptyString
  else String "%" (String (upper_hex (b / 16)) (String (upper_hex (b mod 16)) EmptyString)).

Definition form_encode (s : string) : string :=
  String.concat EmptyString (List.map form_byte (utf8 s)).

(** *** MD5 (RFC 1321) on 32-bit words kept in [Z] *)

Definition mask32 (x : Z) : Z := Z.land x 4294967295.

Definition rotl32 (x : Z) (n : Z) : Z :=
  mask32 (Z.lor (Z.shiftl x n) (Z.shiftr x (32 - n))).

Definition not32 (x : Z) : Z := Z.lxor x 4294967295.

Definition sines : list Z :=
  [3614090360; 3905402710; 606105819; 3250441966;
   4118548399; 1200080426; 2821735955; 4249261313;
   1770035416; 2336552879; 4294925233; 2304563134;
   1804603682; 4254626195; 2792965006; 1236535329;
   4129170786; 3225465664; 643717713; 3921069994;
   3593408605; 38016083; 3634488961; 3889429448;
   568446438; 3275163606; 4107603335; 1163531501;
   2850285829; 4243563512; 1735328473; 2368359562;
   4294588738; 2272392833; 1839030562; 4259657740;
   2763975236; 1272893353; 4139469664; 3200236656;
   681279174; 3936430074; 3572445317; 76029189;
   3654602809; 3873151461; 530742520; 3299628645;
   4096336452; 1126891415; 2878612391; 4237533241;
   1700485571; 2399980690; 4293915773; 2240044497;
   1873313359; 4264355552; 2734768916; 1309151649;
   4149444226; 3174756917; 718787259; 3951481745]%Z.

Definition shifts : list Z :=
  [7; 12; 17; 22; 7; 12; 17; 22; 7; 12; 17; 22; 7; 12; 17; 22;
   5; 9; 14; 20; 5; 9; 14; 20; 5; 9; 14; 20; 5; 9; 14; 20;
   4; 11; 16; 23; 4; 11; 16; 23; 4; 11; 16; 23; 4; 11; 16; 23;
   6; 10; 15; 21; 6; 10; 15; 21; 6; 10; 15; 21; 6; 10; 15; 21]%Z.

(** The message with its padding: a one bit, zeros up to 56 modulo 64, and
    the bit length as a 64-bit little-endian number. *)
Definition le_bytes (count : nat) (x : Z) : list Z :=
  List.map (fun i => Z.land (Z.shiftr x (8 * Z.of_nat i)) 255) (List.seq 0 count).

Definition padded (msg : list Z) : list Z :=
  let len := Z.of_nat (List.length msg) in
  let zeros := Z.to_nat ((55 - len) mod 64) in
  (msg ++ 128%Z :: List.repeat 0%Z zeros ++ le_bytes 8 (8 * len))%list.

Fixpoint le_word (bytes : list Z) : Z :=
  match bytes with
  | [] => 0
  | b :: rest => (b + 256 * le_word rest)%Z
  end.

Fixpoint words (count : nat) (bytes : list Z) : list Z :=
  match count with
  | O => []
  | S n => le_word (List.firstn 4 bytes) :: words n (List.skipn 4 bytes)
  end.

Record digest : Type := mkDigest { dA : Z; dB : Z; dC : Z; dD : Z }.

Definition initial : digest := mkDigest 1732584193 4023233417 2562383102 271733878.

Definition round (m : list Z) (d : digest) (i : nat) : digest :=
  let zi := Z.of_nat i in
  let '(f, g) :=
    if (i <? 16)%nat then
      (Z.lor (Z.land (dB d) (dC d)) (Z.land (not32 (dB d)) (dD d)), zi)
    else if (i <? 32)%nat then
      (Z.lor (Z.land (dD d) (dB d)) (Z.land (not32 (dD d)) (dC d)), (5 * zi + 1) mod 16)
    else if (i <? 48)%nat then
      (Z.lxor (dB d) (Z.lxor (dC d) (dD d)), (3 * zi + 5) mod 16)
    else
      (Z.lxor (dC d) (Z.lor (dB d) (not32 (dD d))), (7 * zi) mod 16) in
  let f' := mask32 (f + dA d + List.nth i sines 0 + List.nth (Z.to_nat g) m 0) in
  mkDigest (dD d) (mask32 (dB d + rotl32 f' (List.nth i shifts 0))) (dB d) (dC d).

Definition block (d : digest) (m : list Z) : digest :=
  let d' := List.fold_left (round m) (List.seq 0 64) d in
  mkDigest (mask32 (dA d + dA d')) (mask32 (dB d + dB d'))
           (mask32 (dC d + dC d')) (mask32 (dD d + dD d')).

Fixpoint blocks (count : nat) (bytes : list Z) (d : digest) : digest :=
  match count with
  | O => d
  | S n => blocks n (List.skipn 64 bytes) (block d (words 16 (List.firstn 64 bytes)))
  end.

Definition hex_byte (b : Z) : string :=
  String (lower_hex (b / 16)) (String (lower_hex (b mod 16)) EmptyString).

(** [crypto.createHash('md5').update(text).digest('hex')]. *)
Definition md5_hex (text : string) : string :=
  let bytes := padded (utf8 text) in
  let d := blocks (List.length bytes / 64)%nat bytes initial in
  String.concat EmptyString
    (List.map hex_byte (le_bytes 4 (dA d) ++ le_bytes 4 (dB d)
                        ++ le_bytes 4 (dC d) ++ le_bytes 4 (dD d))%list).

End Bytes.

(** ** Dates *)

Module Date.

Local Open Scope Z_scope.

(** The civil date of a day number counted from 1970-01-01, in the
    proleptic Gregorian calendar. *)
Definition civil (day : Z) : Z * Z * Z :=
  let z := day + 719468 in
  let era := z / 146097 in
  let doe := z - era * 146097 in
  let yoe := (doe - doe / 1460 + doe / 36524 - doe / 146096) / 365 in
  let doy := doe - (365 * yoe + yoe / 4 - yoe / 100) in
  let mp := (5 * doy + 2) / 153 in
  let d := doy - (153 * mp + 2) / 5 + 1 in
  let m := if mp <? 10 then mp + 3 else mp - 9 in
  let y := yoe + era * 400 + (if m <=? 2 then 1 else 0) in
  (y, m, d).

Definition pad (width : nat) (n : Z) : string :=
  Str.padStart width "0" (Str.of_Z n).

(** Years 0 to 9999 take four digits, the others a sign and six digits. *)
Definition year_text (y : Z) : string :=
  if (0 <=? y) && (y <=? 9999) then pad 4 y
  else String (if y <? 0 then "-"%char else "+"%char) (pad 6 (Z.abs y)).

Definition date_text (ms : Z) : string :=
  let '(y, m, d) := civil (ms / 86400000) in
  (year_text y ++ "-" ++ pad 2 m ++ "-" ++ pad 2 d)%string.

Definition time_text (ms : Z) : string :=
  let t := ms mod 86400000 in
  (pad 2 (t / 3600000) ++ ":" ++ pad 2 (t / 60000 mod 60) ++ ":"
   ++ pad 2 (t / 1000 mod 60) ++ "." ++ pad 3 (t mod 1000))%string.

(** [new Date(ms).toISOString()]. *)
Definition toISOString (ms : Z) : string :=
  (date_text ms ++ "T" ++ time_text ms ++ "Z")%string.

(** [toISOString().split('T')[0]]. *)
Definition iso_date (ms : Z) : string := date_text ms.

End Date.

(** ** Paths: [path.join] and [path.normalize], POSIX flavour *)

Module Path.

(** [path.split('/')]. *)
Fixpoint segments (path : string) : list string :=
  match path with
  | EmptyString => [EmptyString]
  | String c t =>
      if Ascii.eqb c "/" then EmptyString :: segments t
      else
        match segments t with
        | first :: rest => String c first :: rest
        | [] => [String c EmptyString]
        end
  end.

Definition absolute (path : string) : bool :=
  match path with
  | String c _ => Ascii.eqb c "/"
  | EmptyString => false
  end.

(** The last character is a separator. *)
Fixpoint trailing (path : string) : bool :=
  match path with
  | EmptyString => false
  | String c EmptyString => Ascii.eqb c "/"
  | String _ t => trailing t
  end.

(** One segment met by [normalizeString], the segments kept so far with the
    last one first: an empty segment and [.] are skipped, [..] removes the
    last segment kept, or is kept itself when nothing but [..] came before
    and the path is relative, and any other segment is kept. *)
Definition enter (above_root : bool) (kept : list string) (segment : string)
  : list string :=
  if String.eqb segment EmptyString || String.eqb segment "." then kept
  else if String.eqb segment ".." then
    match kept with
    | last :: before =>
        if String.eqb last ".."
        then if above_root then segment :: kept else kept
        else before
    | [] => if above_root then [segment] else []
    end
  else segment :: kept.

(** The segments that remain of a path, the last one first. *)
Definition remaining (path : string) : list string :=
  List.fold_left (enter (negb (absolute path))) (segments path) [].

(** [path.normalize(path)]. *)
Definition normalize (path : string) : string :=
  if Str.is_empty path then "."
  else
    let body := Str.join "/" (List.rev (remaining path)) in
    if Str.is_empty body then
      if absolute path then "/" else if trailing path then "./" else "."
    else
      (if absolute path then "/" else EmptyString)
        ++ body ++ (if trailing path then "/" else EmptyString).

(** The arguments of [path.join] put together, the empty ones left out. *)
Definition joined (a b : string) : string :=
  if Str.is_empty a then b
  else if Str.is_empty b then a
  else a ++ "/" ++ b.

(** [path.join(a, b)]. *)
Definition join (a b : string) : string := normalize (joined a b).

(** Where [path.join(dir, name)] leads: to the entry [name'] of the
    directory [dir] itself, or to some other place of the file system,
    given by its normalized path.  It leads to an entry when the segments
    that remain are those of [dir] followed by one more, and no separator
    ends the path.  A directory given by the empty string is the working
    directory under another name, and nothing is taken for an entry of
    it. *)
Inductive location : Type :=
| Entry (name : string)
| Elsewhere (path : string).

Fixpoint same_segments (a b : list string) : bool :=
  match a, b with
  | [], [] => true
  | x :: a', y :: b' => String.eqb x y && same_segments a' b'
  | _, _ => false
  end.

Definition target (dir name : string) : location :=
  match remaining (joined dir name) with
  | last :: parent =>
      if negb (Str.is_empty dir)
         && same_segments parent (remaining dir)
         && negb (String.eqb last "..")
         && negb (trailing (joined dir name))
      then Entry last
      else Elsewhere (join dir name)
  | [] => Elsewhere (join dir name)
  end.

End Path.

(** ** The middleware *)

Module Varro.

Import JSON.

(** The result of a call that may throw.  [Throws] is the SyntaxError of an
    invalid regular expression, the only exception that escapes the methods
    below.  [Beyond] marks a call that met a pattern outside the modelled
    syntax: what the call does is then left undetermined. *)
Inductive outcome (A : Type) : Type :=
| Returns (a : A)
| Throws
| Beyond.

Arguments Returns {A} a.
Arguments Throws {A}.
Arguments Beyond {A}.

Definition bind_outcome {A B : Type} (o : outcome A) (k : A -> outcome B) : outcome B :=
  match o with
  | Returns a => k a
  | Throws => Throws
  | Beyond => Beyond
  end.

(** [Array.prototype.some] with a callback that may throw: the scan stops at
    the first element that answers true or throws. *)
Fixpoint some {A : Type} (f : A -> outcome bool) (l : list A) : outcome bool :=
  match l with
  | [] => Returns false
  | x :: rest =>
      bind_outcome (f x) (fun hit => if hit then Returns true else some f rest)
  end.

(** [Array.prototype.includes] on strings. *)
Definition includes (l : list string) (s : string) : bool :=
  existsb (String.eqb s) l.

(** *** Configuration and requests *)

Record matching_config : Type := mkMatching {
  includeQuery : bool;
  includeHeaders : bool;
  includeBody : bool;
  caseSensitive : bool
}.

Record filter_config : Type := mkFilters {
  methods : list string;
  urlPatterns : list string;
  excludePatterns : list string
}.

Record config : Type := mkConfig {
  mode : string;
  recordingsDir : string;
  namingPattern : string;
  matching : matching_config;
  filters : filter_config
}.

(** The defaults of [loadConfig]. *)
Definition defaultConfig : config :=
  mkConfig "off" "./recordings" "{method}_{url}_{timestamp}"
    (mkMatching true false false false)
    (mkFilters ["GET"; "POST"; "PUT"; "DELETE"; "PATCH"] ["*"] []).

(** What the middleware reads from the request object.  [query] and
    [headers] list the own properties of the objects in enumeration order;
    a [body] of [None] is [undefined]. *)
Record request : Type := mkRequest {
  method : string;
  url : string;
  path : string;
  query : list (string * json);
  headers : list (string * string);
  body : option json
}.

(** What [saveRecording] reads from the response object: [statusCode] and
    the result of [getHeaders()]. *)
Record response : Type := mkResponse {
  statusCode : Z;
  getHeaders : list (string * json)
}.

(** *** FilterEngine *)

(** [pattern.replace(/\*/g, '.*')]. *)
Definition widen (pattern : string) : string :=
  Replace.replace_all "*" ".*" pattern.

(** [matchesPattern(url, pattern)]. *)
Definition matchesPattern (url pattern : string) : outcome bool :=
  match RegExp.compile (widen pattern) with
  | RegExp.Pattern regex => Returns (RegExp.test regex url)
  | RegExp.SyntaxError => Throws
  | RegExp.Unmodelled => Beyond
  end.

(** [matchesFilters(req, filters)], with [matches] for the method
    [matchesPattern] that it calls on the path and each pattern. *)
Definition filters_with (matches : string -> string -> outcome bool)
                        (req : request) (flt : filter_config) : outcome bool :=
  if negb (includes (methods flt) (method req)) then Returns false
  else
    bind_outcome
      (some (fun pattern =>
               if String.eqb pattern "*" then Returns true
               else matches (path req) pattern)
            (urlPatterns flt))
      (fun urlMatches =>
         if negb urlMatches then Returns false
         else
           bind_outcome
             (some (fun pattern => matches (path req) pattern)
                   (excludePatterns flt))
             (fun shouldExclude => Returns (negb shouldExclude))).

Definition matchesFilters (req : request) (flt : filter_config) : outcome bool :=
  filters_with matchesPattern req flt.

(** The elements that [some] hands to its callback: those up to the first
    one on which the callback answers true or does not return. *)
Fixpoint scanned {A : Type} (f : A -> outcome bool) (l : list A) : list A :=
  match l with
  | [] => []
  | x :: rest =>
      match f x with
      | Returns false => x :: scanned f rest
      | _ => [x]
      end
  end.

(** The patterns that a call of [matchesFilters] hands to [matchesPattern],
    in the order of the calls: none when the method is not listed, else the
    inclusion patterns scanned, the literal [*] left out, and then, when one
    of them accepted the path, the exclusion patterns scanned. *)
Definition evaluated (matches : string -> string -> outcome bool)
                     (req : request) (flt : filter_config) : list string :=
  if negb (includes (methods flt) (method req)) then []
  else
    let includePattern pattern :=
      if String.eqb pattern "*" then Returns true
      else matches (path req) pattern in
    (List.filter (fun pattern => negb (String.eqb pattern "*"))
                 (scanned includePattern (urlPatterns flt))
     ++ match some includePattern (urlPatterns flt) with
        | Returns true => scanned (matches (path req)) (excludePatterns flt)
        | _ => []
        end)%list.

(** *** KeyGenerator *)

(** [new URLSearchParams(query).toString()]: the list of name and value
    pairs of the record, each value converted to a string, run through the
    form serializer. *)
Fixpoint serialize_pairs (pairs : list (string * string)) (output : string) : string :=
  match pairs with
  | [] => output
  | (name, value) :: rest =>
      let output :=
        if Str.is_empty output then output else output ++ "&" in
      serialize_pairs rest
        (output ++ Bytes.form_encode name ++ "=" ++ Bytes.form_encode value)
  end.

Definition URLSearchParams_toString (q : list (string * json)) : string :=
  serialize_pairs (List.map (fun kv => (fst kv, ToString (snd kv))) q) EmptyString.

(** The text of a [[name, value]] pair under the default sort. *)
Definition entry_text (e : string * string) : string :=
  fst e ++ "," ++ snd e.

(** [Array.prototype.sort] without a comparator on header entries: a stable
    sort by the text of the entries. *)
Fixpoint insert_entry (e : string * string) (sorted : list (string * string))
  : list (string * string) :=
  match sorted with
  | [] => [e]
  | e' :: rest =>
      if Str.ltb (entry_text e') (entry_text e) then e' :: insert_entry e rest
      else e :: sorted
  end.

Definition sort_entries (l : list (string * string)) : list (string * string) :=
  List.fold_right insert_entry [] l.

Definition ignored_header (name : string) : bool :=
  includes ["host"; "user-agent"; "accept-encoding"] (Str.toLowerCase name).

(** [generateRequestKey(req)] under the matching configuration [m]. *)
Definition generateRequestKey (m : matching_config) (req : request) : string :=
  let key := method req ++ ":" ++ path req in
  let key :=
    if includeQuery m && (0 <? List.length (query req))%nat
    then key ++ "?" ++ URLSearchParams_toString (query req)
    else key in
  let key :=
    if includeHeaders m then
      let relevantHeaders :=
        Str.join "|"
          (List.map (fun kv => fst kv ++ ":" ++ snd kv)
             (sort_entries
                (List.filter (fun kv => negb (ignored_header (fst kv)))
                   (headers req)))) in
      if negb (Str.is_empty relevantHeaders) then key ++ "|" ++ relevantHeaders
      else key
    else key in
  let key :=
    match body req with
    | Some b =>
        if includeBody m && truthy b
        then key ++ "|body:" ++ Bytes.md5_hex (stringify b)
        else key
    | None => key
    end in
  if caseSensitive m then key else Str.toLowerCase key.

(** *** FilenameTemplater *)

(** [path.replace(/[^a-zA-Z0-9]/g, '_')]. *)
Fixpoint underscore_others (s : string) : string :=
  match s with
  | EmptyString => EmptyString
  | String c t =>
      String (if Str.is_alnum c then c else "_"%char) (underscore_others t)
  end.

(** [s.replace(/_+/g, '_')]: each maximal run of underscores is one match.
    [in_run] tells that the previous character belongs to the current
    match. *)
Fixpoint squeeze (in_run : bool) (s : string) : string :=
  match s with
  | EmptyString => EmptyString
  | String c t =>
      if Ascii.eqb c "_" then
        if in_run then squeeze true t else String "_" (squeeze true t)
      else String c (squeeze false t)
  end.

(** The match of [_$]: an underscore that is the last character. *)
Fixpoint drop_final_underscore (s : string) : string :=
  match s with
  | EmptyString => EmptyString
  | String c EmptyString => if Ascii.eqb c "_" then EmptyString else s
  | String c t => String c (drop_final_underscore t)
  end.

(** [s.replace(/^_|_$/g, '')]: the first alternative can only match at
    index 0, the second only at the last index. *)
Definition strip_edges (s : string) : string :=
  match s with
  | String "_"%char t => drop_final_underscore t
  | _ => drop_final_underscore s
  end.

Definition sanitize (p : string) : string :=
  strip_edges (squeeze false (underscore_others p)).

(** The template with its five placeholders replaced, for a clock reading
    [now] (epoch milliseconds) and the counter value after its increment. *)
Definition render (pattern : string) (req : request) (now : Z) (count : nat) : string :=
  let date := Date.iso_date now in
  let timestamp := now in
  let url := sanitize (path req) in
  Replace.replace_all "{counter}" (Str.padStart 4 "0" (Str.of_nat count))
    (Replace.replace_all "{timestamp}" (Str.of_Z timestamp)
       (Replace.replace_all "{date}" date
          (Replace.replace_all "{url}" url
             (Replace.replace_all "{method}" (method req) pattern)))).

(** *** The instance state and the file system *)

(** The text of a file as [JSON.parse] sees it: a document, or text on
    which the parser throws. *)
Inductive file : Type :=
| Document (value : json)
| Malformed (raw : string).

Inductive console_line : Type :=
| WarnCouldNotLoad (file_path : string)
| WarnCouldNotReadDirectory
| LogRecorded (req_method req_path file_name : string)
| ErrorFailedToSave.

(** The mutable world of one middleware instance: its counter; the files
    directly under the recordings directory as [readdirSync] enumerates
    them ([None] when the directory is missing, so that it can neither be
    read nor written into); the files at the other
    places of the file system, by normalized path; the paths on which a
    write fails; the order in which the file system enumerates two names
    of the directory, which decides where a new file shows up; and the
    console output, oldest line first. *)
Record state : Type := mkState {
  counter : nat;
  listing : option (list (string * file));
  outside : string -> option file;
  refuses : string -> bool;
  lists_before : string -> string -> bool;
  console : list console_line
}.

Definition M (A : Type) : Type := state -> A * state.

Definition ret {A : Type} (a : A) : M A := fun st => (a, st).

Definition bind {A B : Type} (c : M A) (k : A -> M B) : M B :=
  fun st => let (a, st') := c st in k a st'.

Notation "x <- c ;; k" := (bind c (fun x => k))
  (at level 61, c at next level, right associativity).
Notation "c ;;; k" := (bind c (fun _ => k))
  (at level 61, right associativity).

Fixpoint mapM {A B : Type} (f : A -> M B) (l : list A) : M (list B) :=
  match l with
  | [] => ret []
  | x :: rest => y <- f x ;; ys <- mapM f rest ;; ret (y :: ys)
  end.

(** The state with more console output. *)
Definition printed (st : state) (lines : list console_line) : state :=
  mkState (counter st) (listing st) (outside st) (refuses st) (lists_before st)
          (console st ++ lines)%list.

Definition print (line : console_line) : M unit :=
  fun st => (tt, printed st [line]).

(** The part of the state that console output leaves alone. *)
Definition same_store (st st' : state) : Prop :=
  counter st' = counter st /\ listing st' = listing st
  /\ outside st' = outside st /\ refuses st' = refuses st
  /\ lists_before st' = lists_before st.

Definition increment_counter : M nat :=
  fun st => (S (counter st),
             mkState (S (counter st)) (listing st) (outside st) (refuses st)
                     (lists_before st) (console st)).

Fixpoint lookup_file (name : string) (entries : list (string * file)) : option file :=
  match entries with
  | [] => None
  | (n, f) :: rest => if String.eqb n name then Some f else lookup_file name rest
  end.

(** New contents for a file of the directory, which keeps its place. *)
Fixpoint rewrite_file (name : string) (f : file) (entries : list (string * file))
  : list (string * file) :=
  match entries with
  | [] => []
  | (n, g) :: rest =>
      if String.eqb n name then (n, f) :: rest else (n, g) :: rewrite_file name f rest
  end.

(** A new file of the directory shows up before the first file that the
    file system enumerates after it. *)
Fixpoint place_file (before : string -> string -> bool) (name : string) (f : file)
                    (entries : list (string * file)) : list (string * file) :=
  match entries with
  | [] => [(name, f)]
  | (n, g) :: rest =>
      if before name n then (name, f) :: entries
      else (n, g) :: place_file before name f rest
  end.

(** The directory after a file was written. *)
Definition upsert (before : string -> string -> bool) (name : string) (f : file)
                  (entries : list (string * file)) : list (string * file) :=
  match lookup_file name entries with
  | Some _ => rewrite_file name f entries
  | None => place_file before name f entries
  end.

(** The [fs] calls throw on a path with a NUL character; [existsSync]
    answers false on it. *)
Definition has_nul (path : string) : bool := Str.mem (ascii_of_nat 0) path.

(** [path.join(dir, name)]. *)
Definition path_join (dir name : string) : string := Path.join dir name.

(** The file that [path.join(dir, name)] designates, when there is one. *)
Definition consult (dir name : string) (st : state) : option file :=
  if has_nul (path_join dir name) then None
  else
    match Path.target dir name with
    | Path.Entry entry =>
        match listing st with
        | Some entries => lookup_file entry entries
        | None => None
        end
    | Path.Elsewhere place => outside st place
    end.

(** [fs.existsSync(path.join(dir, name))]. *)
Definition existsSync (dir name : string) : M bool :=
  fun st =>
    (match consult dir name st with Some _ => true | None => false end, st).


(** A value handed to [res.send] and kept in [responseBody]: [undefined]
    (a call without argument), a value of JSON (a string, [null], a
    boolean, a number, an array, a plain object), or a Buffer. *)
Inductive argument : Type :=
| Undefined
| Value (v : json)
| Buffer (bytes : list Z).

(** What [JSON.stringify] writes for a property that holds the argument:
    nothing for [undefined], and for a Buffer the object of its [toJSON]. *)
Definition persisted (a : argument) : option json :=
  match a with
  | Undefined => None
  | Value v => Some v
  | Buffer bytes =>
      Some (JObj [("type", JStr "Buffer"); ("data", JArr (List.map JNum bytes))])
  end.

Section Instance.

(** [this.config]. *)
Variable cfg : config.

(** [generateFilename(req)] with the reading [now] of the clock. *)
Definition generateFilename (now : Z) (req : request) : M string :=
  count <- increment_counter ;;
  ret (render (namingPattern cfg) req now count).

(** The callback of [files.map] in [getRecordings]: the parsed file, or
    [null] after a warning.  The names that [readdirSync] returns are
    single segments, so that [path.join] designates the entry itself. *)
Definition load (name : string) : M json :=
  fun st =>
    match listing st with
    | Some entries =>
        match lookup_file name entries with
        | Some (Document value) => (value, st)
        | _ => (print (WarnCouldNotLoad (path_join (recordingsDir cfg) name)) ;;;
                ret JNull) st
        end
    | None => (print (WarnCouldNotLoad (path_join (recordingsDir cfg) name)) ;;;
               ret JNull) st
    end.

(** [getRecordings()]. *)
Definition getRecordings : M (list json) :=
  fun st =>
    match listing st with
    | Some entries =>
        let files :=
          List.filter (fun name => Str.endsWith name ".json")
                      (List.map fst entries) in
        (parsed <- mapM load files ;;
         ret (List.filter truthy parsed)) st
    | None => (print WarnCouldNotReadDirectory ;;; ret []) st
    end.

(** [recording.requestKey === requestKey]. *)
Definition has_key (requestKey : string) (recording : json) : bool :=
  match get recording "requestKey" with
  | Some (JStr s) => String.eqb s requestKey
  | _ => false
  end.

(** [findRecording(req)]; [JNull] is the [null] of the source. *)
Definition findRecording (now : Z) (req : request) : M json :=
  recordings <- getRecordings ;;
  let requestKey := generateRequestKey (matching cfg) req in
  match List.find (has_key requestKey) recordings with
  | Some recording => ret recording
  | None =>
      filename <- generateFilename now req ;;
      let recordingFile := filename ++ ".json" in
      present <- existsSync (recordingsDir cfg) recordingFile ;;
      if present then
        fun st =>
          match consult (recordingsDir cfg) recordingFile st with
          | Some (Document value) => (value, st)
          | _ =>
              (print (WarnCouldNotLoad
                        (path_join (recordingsDir cfg) recordingFile)) ;;;
               ret JNull) st
          end
      else ret JNull
  end.

(** The interaction record built by [saveRecording]; a [body] of [None] is
    the [undefined] property. *)
Record recorded_request : Type := mkRecordedRequest {
  rq_method : string;
  rq_url : string;
  rq_path : string;
  rq_query : list (string * json);
  rq_headers : list (string * json);
  rq_body : option json
}.

Record recorded_response : Type := mkRecordedResponse {
  rs_status : Z;
  rs_headers : list (string * json);
  rs_body : argument
}.

Record recording : Type := mkRecording {
  rec_timestamp : string;
  rec_request : recorded_request;
  rec_response : recorded_response;
  rec_requestKey : string
}.

(** The document that [JSON.stringify(recording, null, 2)] writes, as
    [JSON.parse] reads it back: a property whose value is [undefined] is
    left out. *)
Definition document (r : recording) : json :=
  JObj
    [("timestamp", JStr (rec_timestamp r));
     ("request",
      JObj ([("method", JStr (rq_method (rec_request r)));
             ("url", JStr (rq_url (rec_request r)));
             ("path", JStr (rq_path (rec_request r)));
             ("query", JObj (rq_query (rec_request r)));
             ("headers", JObj (rq_headers (rec_request r)))]
            ++ match rq_body (rec_request r) with
               | Some b => [("body", b)]
               | None => []
               end)%list);
     ("response",
      JObj ([("status", JNum (rs_status (rec_response r)));
             ("headers", JObj (rs_headers (rec_response r)))]
            ++ match persisted (rs_body (rec_response r)) with
               | Some b => [("body", b)]
               | None => []
               end)%list);
     ("requestKey", JStr (rec_requestKey r))].

(** The object literal of [saveRecording]; [stamp] is the clock reading of
    its [new Date()]. *)
Definition build_recording (stamp : Z) (req : request) (res : response)
                           (responseBody : argument) : recording :=
  mkRecording
    (Date.toISOString stamp)
    (mkRecordedRequest (method req) (url req) (path req) (query req)
       (if includeHeaders (matching cfg)
        then List.map (fun kv => (fst kv, JStr (snd kv))) (headers req)
        else [])
       (if includeBody (matching cfg) then body req else None))
    (mkRecordedResponse (statusCode res)
       (if includeHeaders (matching cfg) then getHeaders res else [])
       responseBody)
    (generateRequestKey (matching cfg) req).


End Instance.

End Varro.

(** ** The specification's own wording

    Definitions that follow the sentences of the specification, to be
    compared with the definitions taken from the source. *)

Module Spec.

Import JSON Varro.

(** Section 4.1: each [*] of a pattern stands for any sequence of
    characters, every other character for itself. *)
Fixpoint glob (pattern text : string) : Prop :=
  match pattern with
  | EmptyString => text = EmptyString
  | String c rest =>
      if Ascii.eqb c "*"
      then exists s1 s2, text = s1 ++ s2 /\ glob rest s2
      else exists s', text = String c s' /\ glob rest s'
  end.

(** A match anywhere within the path. *)
Definition glob_within (pattern url : string) : Prop :=
  exists pre mid post, url = pre ++ mid ++ post /\ glob pattern mid.

(** A pattern made of [*] and of characters without a role in the syntax
    of regular expressions. *)
Definition wildcard_only (pattern : string) : bool :=
  Str.all (fun c => Ascii.eqb c "*" || negb (RegExp.is_syntax_char c)) pattern.

(** A text without line terminators, as every request path is. *)
Definition single_line (s : string) : bool :=
  Str.all (fun c => negb (RegExp.is_line_terminator c)) s.

(** The pattern with each [*] replaced by [.*]. *)
Fixpoint expand_stars (pattern : string) : string :=
  match pattern with
  | EmptyString => EmptyString
  | String c rest =>
      if Ascii.eqb c "*" then String "." (String "*" (expand_stars rest))
      else String c (expand_stars rest)
  end.

(** Section 4.2, step 2: one parameter as [name=value], in form encoding. *)
Definition pair_text (p : string * string) : string :=
  Bytes.form_encode (fst p) ++ "=" ++ Bytes.form_encode (snd p).

Definition query_step (m : matching_config) (req : request) : string :=
  match query req with
  | [] => EmptyString
  | _ :: _ =>
      if includeQuery m then
        "?" ++ Str.join "&"
                 (List.map (fun kv => pair_text (fst kv, ToString (snd kv)))
                           (query req))
      else EmptyString
  end.

(** Section 4.2, step 3. *)
Definition headers_step (m : matching_config) (req : request) : string :=
  if includeHeaders m then
    match sort_entries
            (List.filter (fun kv => negb (ignored_header (fst kv))) (headers req)) with
    | [] => EmptyString
    | kept => "|" ++ Str.join "|" (List.map (fun kv => fst kv ++ ":" ++ snd kv) kept)
    end
  else EmptyString.

(** Section 4.2, step 4. *)
Definition body_step (m : matching_config) (req : request) : string :=
  match body req with
  | Some b =>
      if includeBody m && truthy b then "|body:" ++ Bytes.md5_hex (stringify b)
      else EmptyString
  | None => EmptyString
  end.

(** Section 4.2, step 5. *)
Definition case_step (m : matching_config) (key : string) : string :=
  if caseSensitive m then key else Str.toLowerCase key.

(** Section 4.3: consecutive underscores collapsed to one. *)
Definition starts_with_underscore (s : string) : bool :=
  match s with
  | String c _ => Ascii.eqb c "_"
  | EmptyString => false
  end.

Fixpoint collapse (s : string) : string :=
  match s with
  | EmptyString => EmptyString
  | String c t =>
      if Ascii.eqb c "_" && starts_with_underscore t then collapse t
      else String c (collapse t)
  end.

(** No two underscores in a row. *)
Fixpoint no_run (s : string) : bool :=
  match s with
  | EmptyString => true
  | String c t => negb (Ascii.eqb c "_" && starts_with_underscore t) && no_run t
  end.

(** Section 4.3: leading and trailing underscores trimmed. *)
Fixpoint trim_leading (s : string) : string :=
  match s with
  | EmptyString => EmptyString
  | String c t => if Ascii.eqb c "_" then trim_leading t else s
  end.

Fixpoint trim_trailing (s : string) : string :=
  match s with
  | EmptyString => EmptyString
  | String c t =>
      let t' := trim_trailing t in
      if Ascii.eqb c "_" && Str.is_empty t' then EmptyString else String c t'
  end.

Definition url_part (p : string) : string :=
  trim_trailing (trim_leading (collapse (underscore_others p))).

(** Section 4.4, [listAll]: the documents of the [*.json] files, in
    enumeration order.  A parsed value is kept when it is truthy, as every
    record is. *)
Fixpoint parsed_documents (entries : list (string * file)) : list json :=
  match entries with
  | [] => []
  | (name, Document value) :: rest =>
      if Str.endsWith name ".json" && truthy value
      then value :: parsed_documents rest
      else parsed_documents rest
  | (_, Malformed _) :: rest => parsed_documents rest
  end.

(** The warnings of [listAll]: one for each [*.json] file that does not
    parse. *)
Fixpoint parse_warnings (dir : string) (entries : list (string * file))
  : list console_line :=
  match entries with
  | [] => []
  | (name, Malformed _) :: rest =>
      if Str.endsWith name ".json"
      then WarnCouldNotLoad (path_join dir name) :: parse_warnings dir rest
      else parse_warnings dir rest
  | (_, Document _) :: rest => parse_warnings dir rest
  end.


(** The expression that a wildcard pattern compiles to. *)
Definition glob_term (c : ascii) : RegExp.regex :=
  if Ascii.eqb c "*" then RegExp.Star RegExp.Dot else RegExp.Chr c.

Fixpoint glob_terms (pattern : string) : list RegExp.regex :=
  match pattern with
  | EmptyString => []
  | String c rest => glob_term c :: glob_terms rest
  end.

End Spec.

(** ** The request handlers

    [middleware], [recordRequest] and [replayRequest], seen through what
    they do to the response object and to the call chain.  [JSON.parse] on
    the text of a recorded body is a parameter of the section: the handlers
    only test whether it succeeds and pass its result on, so that what is
    proved of them holds whatever the parser does, also on the texts whose
    value [json] does not hold. *)

Module Handlers.

Import JSON Varro.

(** The exceptions that escape a handler. *)
Inductive error : Type :=
| SyntaxError
| TypeError.

(** How a call ends; [Undetermined] as [Beyond] above. *)
Inductive completion (A : Type) : Type :=
| Normal (a : A)
| Abrupt (e : error)
| Undetermined.

Arguments Normal {A} a.
Arguments Abrupt {A} e.
Arguments Undetermined {A}.

(** A call made by the middleware on the response object or on [next];
    [Status None] is [res.status(undefined)]. *)
Inductive action : Type :=
| Status (code : option json)
| SetHeader (name : string) (value : json)
| Json (body : argument)
| Send (body : argument)
| End
| Next.


Fixpoint indexed {A : Type} (i : nat) (l : list A) : list (string * A) :=
  match l with
  | [] => []
  | x :: rest => (Str.of_nat i, x) :: indexed (S i) rest
  end.

Fixpoint characters (s : string) : list json :=
  match s with
  | EmptyString => []
  | String c t => JStr (String c EmptyString) :: characters t
  end.

(** [Object.entries(value)] on a value that is neither [null] nor
    [undefined]. *)
Definition entries (j : json) : list (string * json) :=
  match j with
  | JObj fields => fields
  | JArr items => indexed 0 items
  | JStr s => indexed 0 (characters s)
  | _ => []
  end.


Definition shouldReplay (cfg : config) (req : request) : outcome bool :=
  matchesFilters req (filters cfg).




Section Parsing.

(** [JSON.parse(text)], [None] when it throws. *)
Variable JSON_parse : string -> option json.

(** The branch of [replayRequest] taken when [recording] is truthy.
    Reading [recording.response.status] throws when the recording has no
    [response]; nothing has been emitted by then. *)
Definition replay (recording : json) : completion (list action) :=
  match get recording "response" with
  | None => Abrupt TypeError
  | Some JNull => Abrupt TypeError
  | Some response =>
      let headers :=
        match get response "headers" with
        | Some h => if truthy h then entries h else []
        | None => []
        end in
      let body_actions :=
        match get response "body" with
        | Some b =>
            if truthy b then
              match JSON_parse (ToString b) with
              | Some value => [Json (Value value)]
              | None => [Send (Value b)]
              end
            else [End]
        | None => [End]
        end in
      Normal (Status (get response "status")
              :: List.map (fun kv => SetHeader (fst kv) (snd kv)) headers
              ++ body_actions)%list
  end.

(** [replayRequest(req, res, next)] with the reading [now] of the clock. *)
Definition replayRequest (cfg : config) (now : Z) (req : request)
  : state -> completion (list action) * state :=
  fun st =>
    match shouldReplay cfg req with
    | Returns false => (Normal [Next], st)
    | Returns true =>
        let (recording, st') := findRecording cfg now req st in
        if truthy recording then (replay recording, st')
        else (Normal [Next], st')
    | Throws => (Abrupt SyntaxError, st)
    | Beyond => (Undetermined, st)
    end.



End Parsing.

End Handlers.

(** ** Auxiliary notions for the properties below *)

Module Aux.

Import RegExp Varro.


(** A pattern without any character of regular-expression syntax. *)
Definition literal_pattern (pattern : string) : bool :=
  Str.all (fun c => negb (is_syntax_char c)) pattern.

(** A pattern made of [*] only. *)
Definition stars_only (pattern : string) : bool :=
  Str.all (fun c => Ascii.eqb c "*") pattern.

(** [needle] occurs somewhere in [s]. *)
Fixpoint occurs (needle s : string) : bool :=
  match Str.strip_prefix needle s with
  | Some _ => true
  | None =>
      match s with
      | EmptyString => false
      | String _ t => occurs needle t
      end
  end.

(** The header entries that enter the key. *)
Definition relevant (hs : list (string * string)) : list (string * string) :=
  List.filter (fun kv => negb (ignored_header (fst kv))) hs.

(** [a] does not come after [b] in the order of the default sort. *)
Definition precedes (a b : string * string) : Prop :=
  Str.ltb (entry_text b) (entry_text a) = false.


(** The file consulted by the fallback of [findRecording]: the one that
    [path.join] of the directory and of the rendered name designates, in
    the directory or elsewhere. *)
Definition fallback_file (cfg : config) (now : Z) (req : request) (st : state)
  : option file :=
  consult (recordingsDir cfg)
          (render (namingPattern cfg) req now (S (counter st)) ++ ".json") st.

(** The call to the downstream handler. *)
Definition is_next (a : Handlers.action) : bool :=
  match a with
  | Handlers.Next => true
  | _ => false
  end.

(** How a recorded body text is emitted on replay, for a given parser. *)
Definition emitted_body (parse : string -> option JSON.json) (text : string)
  : list Handlers.action :=
  if Str.is_empty text then [Handlers.End]
  else
    match parse text with
    | Some value => [Handlers.Json (Value value)]
    | None => [Handlers.Send (Value (JSON.JStr text))]
    end.

(** How a recorded body of any kind is emitted on replay: nothing but
    [res.end()] for a body that was not written or is falsy, else the value
    that [JSON.parse] reads from the body converted to a string, else the
    body as it was written. *)
Definition replayed_body (parse : string -> option JSON.json) (body : argument)
  : list Handlers.action :=
  match persisted body with
  | Some written =>
      if JSON.truthy written then
        match parse (JSON.ToString written) with
        | Some value => [Handlers.Json (Value value)]
        | None => [Handlers.Send (Value written)]
        end
      else [Handlers.End]
  | None => [Handlers.End]
  end.

(** The value of a capital hexadecimal digit. *)
Definition hex_value (c : ascii) : nat :=
  if Str.is_digit c then Str.code c - 48 else Str.code c - 55.

(** Form decoding, the inverse of [Bytes.form_encode] on its image: a plus
    sign is a space, a percent sign starts a byte, and a byte above 127
    starts a two-byte UTF-8 sequence. *)
Fixpoint form_decode (s : string) : string :=
  match s with
  | EmptyString => EmptyString
  | String "%"%char (String a (String b t)) =>
      let v := 16 * hex_value a + hex_value b in
      if (v <? 128)%nat then String (ascii_of_nat v) (form_decode t)
      else
        match t with
        | String "%"%char (String a' (String b' t')) =>
            String (ascii_of_nat ((v mod 32) * 64
                                  + (16 * hex_value a' + hex_value b') mod 64))
                   (form_decode t')
        | _ => EmptyString
        end
  | String "+"%char t => String " " (form_decode t)
  | String c t => String c (form_decode t)
  end.

(** The characters that form encoding never produces between the parts of
    a query. *)
Definition separator_free (s : string) : bool :=
  negb (Str.mem "&" s) && negb (Str.mem "=" s).

(** A query whose values are all strings, of code units below 256 as every
    [string] is. *)
Definition text_query (q : list (string * JSON.json)) : Prop :=
  forall k v, In (k, v) q -> exists s, v = JSON.JStr s.

(** The characters a sanitized path is made of. *)
Definition word_char (c : ascii) : bool := Str.is_alnum c || Ascii.eqb c "_".

(** The last character, when there is one. *)
Fixpoint ends_with_underscore (s : string) : bool :=
  match s with
  | EmptyString => false
  | String c EmptyString => Ascii.eqb c "_"
  | String _ t => ends_with_underscore t
  end.

End Aux.

(** * Properties *)

(** ** Strings *)

Section StringFacts.

Lemma sapp_nil_r (s : string) : s ++ EmptyString = s.
Proof. induction s as [|c s IH]; simpl; [reflexivity | now rewrite IH]. Qed.

Lemma sapp_assoc (a b c : string) : (a ++ b) ++ c = a ++ b ++ c.
Proof. induction a as [|x a IH]; simpl; [reflexivity | now rewrite IH]. Qed.

Lemma slength_app (a b : string) : length (a ++ b) = length a + length b.
Proof. induction a as [|x a IH]; simpl; [reflexivity | now rewrite IH]. Qed.

Lemma is_empty_true (s : string) : Str.is_empty s = true <-> s = EmptyString.
Proof. destruct s; simpl; split; congruence. Qed.

Lemma is_empty_app (a b : string) :
  Str.is_empty (a ++ b) = Str.is_empty a && Str.is_empty b.
Proof. destruct a; reflexivity. Qed.

Lemma all_app (p : ascii -> bool) (a b : string) :
  Str.all p (a ++ b) = Str.all p a && Str.all p b.
Proof.
  induction a as [|x a IH]; simpl; [reflexivity|].
  now rewrite IH, andb_assoc.
Qed.

End StringFacts.

(** ** The matcher against the declarative semantics *)

Section Matcher.

Import RegExp.

Lemma after_empty (b : bool) : after b EmptyString = b.
Proof. unfold after; simpl; apply andb_true_r. Qed.

Lemma after_app (b : bool) (s1 s2 : string) :
  after (after b s1) s2 = after b (s1 ++ s2).
Proof. unfold after; now rewrite is_empty_app, andb_assoc. Qed.

Lemma after_cons (b : bool) (c : ascii) (s : string) : after b (String c s) = false.
Proof. unfold after; simpl; apply andb_false_r. Qed.

Lemma eat_computes (p : ascii -> bool) (s : string)
      (k : bool -> string -> bool) :
  eat p s k = true <->
  exists d t, s = String d t /\ p d = true /\ k false t = true.
Proof.
  destruct s as [|d t]; simpl.
  - split; [discriminate | intros (d & t & H & _); discriminate].
  - rewrite andb_true_iff. split.
    + intros [Hp Hk]. now exists d, t.
    + intros (d' & t' & H & Hp & Hk). injection H as -> ->. now split.
Qed.

Lemma iterate_sound (r : regex) m (k : bool -> string -> bool) :
  computes r m ->
  forall n b t,
    iterate m k n b t = true ->
    exists s1 s2, t = s1 ++ s2 /\ Matches (Star r) b s1 s2
                  /\ k (after b s1) s2 = true.
Proof.
  intros Hm. induction n as [|n IH]; intros b t H; simpl in H;
    apply orb_true_iff in H; destruct H as [H|H].
  - exists EmptyString, t. rewrite after_empty. repeat split; [constructor | easy].
  - discriminate.
  - exists EmptyString, t. rewrite after_empty. repeat split; [constructor | easy].
  - apply Hm in H. destruct H as (s1 & s2 & -> & H1 & H2).
    apply andb_true_iff in H2. destruct H2 as [_ H2].
    apply IH in H2. destruct H2 as (s3 & s4 & -> & H3 & H4).
    exists (s1 ++ s3), s4. rewrite sapp_assoc, <- after_app.
    repeat split; [| easy]. now constructor.
Qed.

Lemma iterate_complete (r0 : regex) (b : bool) (s1 s2 : string) :
  Matches r0 b s1 s2 ->
  forall r m k n,
    r0 = Star r -> computes r m ->
    length (s1 ++ s2) <= n ->
    k (after b s1) s2 = true ->
    iterate m k n b (s1 ++ s2) = true.
Proof.
  induction 1; intros r' m k n E Hm Hn Hk; try discriminate; injection E as ->.
  - rewrite after_empty in Hk. simpl in *. destruct n; simpl; now rewrite Hk.
  - destruct s1 as [|c s1].
    + rewrite after_empty in *. simpl. simpl in Hn.
      now apply (IHMatches2 r' m k n).
    + clear IHMatches1. rewrite sapp_assoc in *. destruct n as [|n]; [simpl in Hn; lia|].
      simpl. apply orb_true_iff. right.
      change (String c (s1 ++ s2 ++ rest)) with (String c s1 ++ s2 ++ rest).
      apply Hm. exists (String c s1), (s2 ++ rest). repeat split; [easy|].
      apply andb_true_iff. split.
      * apply Nat.ltb_lt. simpl. rewrite !slength_app. lia.
      * apply (IHMatches2 r' m k n); auto.
        simpl in Hn. rewrite !slength_app in *. lia.
        now rewrite after_app.
Qed.

Lemma run_computes (r : regex) : computes r (run r).
Proof.
  induction r; intros b s k; simpl; unfold computes in *.
  - (* Eps *)
    split.
    + intros H. exists EmptyString, s. rewrite after_empty. repeat split; [constructor|easy].
    + intros (s1 & s2 & -> & H & Hk). inversion H; subst. now rewrite after_empty in Hk.
  - (* Chr *)
    rewrite eat_computes. split.
    + intros (d & t & -> & Hd & Hk). apply Ascii.eqb_eq in Hd. subst d.
      exists (String c EmptyString), t. rewrite after_cons. repeat split; [constructor|easy].
    + intros (s1 & s2 & -> & H & Hk). inversion H; subst. rewrite after_cons in Hk.
      exists c, s2. repeat split; [apply Ascii.eqb_refl|easy].
  - (* Dot *)
    rewrite eat_computes. split.
    + intros (d & t & -> & Hd & Hk). apply negb_true_iff in Hd.
      exists (String d EmptyString), t. rewrite after_cons. repeat split; [now constructor|easy].
    + intros (s1 & s2 & -> & H & Hk). inversion H; subst. rewrite after_cons in Hk.
      exists d, s2. repeat split; [now apply negb_true_iff|easy].
  - (* Cls *)
    rewrite eat_computes. split.
    + intros (d & t & -> & Hd & Hk).
      exists (String d EmptyString), t. rewrite after_cons. repeat split; [now constructor|easy].
    + intros (s1 & s2 & -> & H & Hk). inversion H; subst. rewrite after_cons in Hk.
      exists d, s2. repeat split; easy.
  - (* Bol *)
    rewrite andb_true_iff. split.
    + intros [-> Hk]. exists EmptyString, s. rewrite after_empty. repeat split; [constructor|easy].
    + intros (s1 & s2 & -> & H & Hk). inversion H; subst. rewrite after_empty in Hk. now split.
  - (* Eol *)
    rewrite andb_true_iff, is_empty_true. split.
    + intros [-> Hk]. exists EmptyString, EmptyString. rewrite after_empty.
      repeat split; [constructor|easy].
    + intros (s1 & s2 & -> & H & Hk). inversion H; subst. rewrite after_empty in Hk. now split.
  - (* Seq *)
    rewrite IHr1. split.
    + intros (s1 & s2 & -> & H1 & H2). apply IHr2 in H2.
      destruct H2 as (s3 & s4 & -> & H3 & H4).
      exists (s1 ++ s3), s4. rewrite sapp_assoc, <- after_app. repeat split; [|easy].
      now constructor.
    + intros (s1 & s2 & -> & H & Hk). inversion H; subst.
      exists s0, (s3 ++ s2). rewrite sapp_assoc. repeat split; [easy|].
      apply IHr2. exists s3, s2. rewrite after_app. now repeat split.
  - (* Alt *)
    rewrite orb_true_iff, IHr1, IHr2. split.
    + intros [(s1 & s2 & -> & H & Hk)|(s1 & s2 & -> & H & Hk)];
        exists s1, s2; repeat split; auto; now constructor.
    + intros (s1 & s2 & -> & H & Hk). inversion H; subst; [left|right];
        exists s1, s2; now repeat split.
  - (* Star *)
    split.
    + apply (iterate_sound r (run r)). exact IHr.
    + intros (s1 & s2 & -> & H & Hk).
      apply (iterate_complete (Star r) b s1 s2 H r); auto.
Qed.

Lemma search_within (r : regex) (s : string) (b : bool) :
  search r b s = true <->
  exists pre mid post,
    s = pre ++ mid ++ post /\ Matches r (after b pre) mid post.
Proof.
  pose proof (run_computes r) as Hrun. unfold computes in Hrun.
  revert b. induction s as [|c s IH]; intros b; simpl;
    rewrite orb_true_iff, Hrun.
  - split.
    + intros [(s1 & s2 & E & H & _)|H]; [|discriminate].
      exists EmptyString, s1, s2. rewrite after_empty. now split.
    + intros (pre & mid & post & E & H). left.
      destruct pre; [|discriminate]. rewrite after_empty in H.
      exists mid, post. now repeat split.
  - rewrite IH. split.
    + intros [(s1 & s2 & E & H & _)|(pre & mid & post & E & H)].
      * exists EmptyString, s1, s2. rewrite after_empty. now split.
      * exists (String c pre), mid, post. rewrite after_cons. subst s.
        split; [reflexivity|]. exact H.
    + intros (pre & mid & post & E & H). destruct pre as [|d pre].
      * left. rewrite after_empty in H. exists mid, post. now repeat split.
      * right. injection E as -> ->. rewrite after_cons in H.
        exists pre, mid, post. now split.
Qed.

Lemma test_within (r : regex) (s : string) :
  test r s = true <-> MatchesWithin r s.
Proof.
  unfold test, MatchesWithin. rewrite search_within.
  split; intros (pre & mid & post & E & H); exists pre, mid, post; split; auto;
    unfold after in *; simpl in *; exact H.
Qed.

End Matcher.

(** ** Wildcard patterns *)

Section Wildcards.

Import RegExp Varro Spec.

Lemma replace_stars (s : string) :
  forall fuel before,
    length s < fuel ->
    Replace.replace_from fuel "*" ".*" before s = expand_stars s.
Proof.
  induction s as [|c s IH]; intros fuel before Hf;
    (destruct fuel as [|fuel]; [inversion Hf|]).
  - reflexivity.
  - simpl in Hf. cbn [Replace.replace_from Str.strip_prefix expand_stars].
    rewrite (Ascii.eqb_sym "*" c). destruct (Ascii.eqb c "*").
    + cbn. rewrite IH by lia. reflexivity.
    + rewrite IH by lia. reflexivity.
Qed.

Lemma widen_expand (pattern : string) : widen pattern = expand_stars pattern.
Proof. unfold widen, Replace.replace_all. apply replace_stars. lia. Qed.

Lemma skip_lazy_cons (c : ascii) (t : string) :
  skip_lazy (String c t) = if Ascii.eqb c "?" then t else String c t.
Proof. destruct c as [[] [] [] [] [] [] [] []]; reflexivity. Qed.

Lemma plain_not_question (c : ascii) :
  is_syntax_char c = false -> Ascii.eqb c "?" = false.
Proof.
  unfold is_syntax_char, syntax_chars. simpl. intros H.
  repeat (apply orb_false_iff in H; destruct H as [? H]). assumption.
Qed.

Lemma wildcard_cons (c : ascii) (t : string) :
  wildcard_only (String c t) = true ->
  (Ascii.eqb c "*" = true \/ (Ascii.eqb c "*" = false /\ is_syntax_char c = false))
  /\ wildcard_only t = true.
Proof.
  unfold wildcard_only. simpl. intros H. apply andb_true_iff in H.
  destruct H as [H1 H2]. split; [|exact H2].
  destruct (Ascii.eqb c "*"); [now left|right]. simpl in H1.
  split; [reflexivity|]. now apply negb_true_iff.
Qed.

Lemma skip_lazy_expand (t : string) :
  wildcard_only t = true -> skip_lazy (expand_stars t) = expand_stars t.
Proof.
  destruct t as [|c t]; [reflexivity|]. intros H.
  apply wildcard_cons in H. destruct H as [[H|[H1 H2]] _]; simpl.
  - rewrite H. reflexivity.
  - rewrite H1. rewrite skip_lazy_cons, plain_not_question by assumption.
    reflexivity.
Qed.

Lemma parse_plain (c : ascii) (t : string) fuel stack f :
  is_syntax_char c = false ->
  parse (S fuel) (String c t) stack f = parse fuel t stack (push_atom (Chr c) f).
Proof. intros H. simpl. now rewrite H. Qed.

Lemma parse_dot_star (t : string) fuel stack f :
  parse (S (S fuel)) (String "." (String "*" t)) stack f =
  parse fuel (skip_lazy t) stack
        (mkFrame (alts f) (Star Dot :: terms f) false).
Proof. reflexivity. Qed.

Lemma close_terms (a : list regex) (l1 l2 : list regex) (x : regex) (q q' : bool) :
  close (mkFrame a (l1 ++ x :: l2)%list q) = close (mkFrame a ((l1 ++ [x]) ++ l2)%list q').
Proof. unfold close. simpl. now rewrite <- List.app_assoc. Qed.

Lemma parse_wildcard (p : string) :
  wildcard_only p = true ->
  forall fuel f,
    length (expand_stars p) < fuel ->
    parse fuel (expand_stars p) [] f =
    Pattern (close (mkFrame (alts f) (List.rev (glob_terms p) ++ terms f)%list
                            (quantifiable f))).
Proof.
  induction p as [|c p IH]; intros Hw fuel f Hf;
    (destruct fuel as [|fuel]; [inversion Hf|]).
  - destruct f; reflexivity.
  - apply wildcard_cons in Hw. destruct Hw as [[H|[H1 H2]] Hw].
    + apply Ascii.eqb_eq in H. subst c. simpl in Hf.
      destruct fuel as [|fuel]; [lia|].
      cbn [expand_stars Ascii.eqb Bool.eqb glob_terms glob_term].
      rewrite parse_dot_star, skip_lazy_expand by assumption.
      rewrite IH by (auto; lia). f_equal. cbn [alts terms quantifiable List.rev].
      apply close_terms.
    + cbn [expand_stars glob_terms]. unfold glob_term. rewrite H1.
      rewrite parse_plain by assumption.
      simpl in Hf. rewrite H1 in Hf. simpl in Hf.
      rewrite IH by (auto; lia). f_equal. cbn [alts terms quantifiable List.rev push_atom].
      apply close_terms.
Qed.

Lemma compile_wildcard (p : string) :
  wildcard_only p = true ->
  compile (widen p) = Pattern (mk_seq (glob_terms p)).
Proof.
  intros H. unfold compile. rewrite widen_expand, parse_wildcard by (auto; lia).
  unfold close, empty_frame. cbn [alts terms quantifiable].
  rewrite List.app_nil_r, List.rev_involutive. reflexivity.
Qed.

End Wildcards.

(** ** Patterns as globs *)

Section Globs.

Import RegExp Varro Spec.

Lemma matches_eps (b : bool) (s rest : string) :
  Matches Eps b s rest <-> s = EmptyString.
Proof. split; [now inversion 1 | intros ->; constructor]. Qed.

Lemma matches_chr (c : ascii) (b : bool) (s rest : string) :
  Matches (Chr c) b s rest <-> s = String c EmptyString.
Proof. split; [now inversion 1 | intros ->; constructor]. Qed.

Lemma star_dot_single_line (r : regex) (b : bool) (s rest : string) :
  Matches r b s rest -> r = Star Dot -> single_line s = true.
Proof.
  induction 1; intros E; try discriminate; injection E as ->.
  - reflexivity.
  - unfold single_line in *. rewrite all_app. apply andb_true_iff. split; auto.
    match goal with
    | Hd : Matches Dot _ _ _ |- _ => inversion Hd as [| |d b' rest' Hlt| | | | | | | |]; subst
    end.
    simpl. now rewrite Hlt.
Qed.

Lemma single_line_star_dot (s : string) :
  single_line s = true -> forall b rest, Matches (Star Dot) b s rest.
Proof.
  induction s as [|c s IH]; intros H b rest; [constructor|].
  unfold single_line in H. simpl in H. apply andb_true_iff in H.
  destruct H as [Hc Hs]. apply negb_true_iff in Hc.
  change (String c s) with (String c EmptyString ++ s).
  apply MStarStep; [now constructor | now apply IH].
Qed.

Lemma matches_mk_seq_cons (r : regex) (l : list regex) (b : bool) (s rest : string) :
  Matches (mk_seq (r :: l)) b s rest <->
  exists s1 s2, s = s1 ++ s2 /\ Matches r b s1 (s2 ++ rest)
                /\ Matches (mk_seq l) (after b s1) s2 rest.
Proof.
  destruct l as [|r' l].
  - simpl. split.
    + intros H. exists s, EmptyString. rewrite sapp_nil_r. repeat split; [easy|constructor].
    + intros (s1 & s2 & -> & H1 & H2). apply matches_eps in H2. subst s2.
      now rewrite sapp_nil_r.
  - change (mk_seq (r :: r' :: l)) with (Seq r (mk_seq (r' :: l))). split.
    + inversion 1; subst. now exists s1, s2.
    + intros (s1 & s2 & -> & H1 & H2). now constructor.
Qed.

Lemma glob_matches (p : string) :
  forall b s rest,
    single_line s = true ->
    (Matches (mk_seq (glob_terms p)) b s rest <-> glob p s).
Proof.
  induction p as [|c p IH]; intros b s rest Hs.
  - simpl. apply matches_eps.
  - cbn [glob_terms glob]. rewrite matches_mk_seq_cons. unfold glob_term.
    destruct (Ascii.eqb c "*").
    + split.
      * intros (s1 & s2 & -> & H1 & H2). exists s1, s2. split; [reflexivity|].
        unfold single_line in Hs. rewrite all_app in Hs.
        apply andb_true_iff in Hs. now apply IH in H2.
      * intros (s1 & s2 & -> & H). exists s1, s2.
        unfold single_line in Hs. rewrite all_app in Hs.
        apply andb_true_iff in Hs. destruct Hs as [Hs1 Hs2].
        repeat split; [now apply single_line_star_dot | now apply IH].
    + split.
      * intros (s1 & s2 & -> & H1 & H2). apply matches_chr in H1. subst s1.
        exists s2. split; [reflexivity|].
        unfold single_line in Hs. simpl in Hs. apply andb_true_iff in Hs.
        now apply IH in H2.
      * intros (s' & -> & H). exists (String c EmptyString), s'.
        unfold single_line in Hs. simpl in Hs. apply andb_true_iff in Hs.
        repeat split; [constructor | now apply IH].
Qed.

Lemma glob_terms_within (p url : string) :
  single_line url = true ->
  (MatchesWithin (mk_seq (glob_terms p)) url <-> glob_within p url).
Proof.
  intros Hs. unfold MatchesWithin, glob_within.
  split; intros (pre & mid & post & -> & H); exists pre, mid, post;
    (split; [reflexivity|]);
    unfold single_line in Hs; rewrite !all_app in Hs;
    apply andb_true_iff in Hs; destruct Hs as [_ Hs];
    apply andb_true_iff in Hs; destruct Hs as [Hs _].
  - now apply glob_matches in H.
  - now apply glob_matches.
Qed.

Lemma matchesPattern_compiled (url pattern : string) (r : regex) :
  compile (widen pattern) = Pattern r ->
  matchesPattern url pattern = Returns (test r url).
Proof. unfold matchesPattern. now intros ->. Qed.

Lemma returns_true_iff (b : bool) : @Returns bool b = Returns true <-> b = true.
Proof. split; [now injection 1 | now intros ->]. Qed.

(** C5: the pattern handed to the regular-expression engine is the url
    pattern with each [*] replaced by [.*]; for every pattern that compiles,
    [matchesPattern] answers true exactly when the expression matches some
    part of the path, wherever it starts and ends; for a pattern made of
    wildcards and ordinary characters and a path without line breaks, that
    is exactly when some part of the path reads as the pattern with each
    [*] standing for any sequence of characters.  In particular [/api]
    matches [/api/users] and [/v2/api/x]. *)
Theorem matchesPattern_unanchored :
  (forall pattern, widen pattern = expand_stars pattern)
  /\ (forall url pattern r,
        compile (widen pattern) = Pattern r ->
        (matchesPattern url pattern = Returns true <-> MatchesWithin r url))
  /\ (forall url pattern,
        wildcard_only pattern = true ->
        single_line url = true ->
        (exists hit, matchesPattern url pattern = Returns hit)
        /\ (matchesPattern url pattern = Returns true <-> glob_within pattern url))
  /\ matchesPattern "/api/users" "/api" = Returns true
  /\ matchesPattern "/v2/api/x" "/api" = Returns true.
Proof.
  split; [exact widen_expand|]. split; [|split; [|split; reflexivity]].
  - intros url pattern r H. rewrite (matchesPattern_compiled _ _ _ H).
    rewrite returns_true_iff. apply test_within.
  - intros url pattern Hw Hs. pose proof (compile_wildcard pattern Hw) as H.
    rewrite (matchesPattern_compiled _ _ _ H). split; [eauto|].
    rewrite returns_true_iff, test_within. now apply glob_terms_within.
Qed.

Lemma matchesPattern_unanchored_witness :
  (exists hit, matchesPattern "/v2/api/x" "/a*i" = Returns hit)
  /\ (matchesPattern "/v2/api/x" "/a*i" = Returns true <-> glob_within "/a*i" "/v2/api/x").
Proof.
  destruct matchesPattern_unanchored as (_ & _ & H & _).
  apply (H "/v2/api/x" "/a*i"); reflexivity.
Defined.

(** C10: the characters of a url pattern other than [*] are read as
    regular-expression syntax: the pattern [/v1.0] matches the path
    [/v1X0], which does not contain the text of the pattern; so there are a
    pattern and a path on which [matchesPattern] answers true although no
    part of the path reads as the pattern with only [*] as a wildcard. *)
Theorem matchesPattern_reads_regex_syntax :
  matchesPattern "/v1X0" "/v1.0" = Returns true
  /\ ~ glob_within "/v1.0" "/v1X0"
  /\ exists pattern url,
       matchesPattern url pattern = Returns true /\ ~ glob_within pattern url.
Proof.
  assert (Hneg : ~ glob_within "/v1.0" "/v1X0").
  { intros (pre & mid & post & E & H). simpl in H.
    destruct H as (s1 & -> & s2 & -> & s3 & -> & s4 & -> & s5 & -> & ->).
    assert (L := f_equal length E). rewrite !slength_app in L. simpl in L.
    destruct pre; [|simpl in L; lia]. discriminate E. }
  split; [reflexivity|]. split; [exact Hneg|].
  exists "/v1.0", "/v1X0". split; [reflexivity | exact Hneg].
Qed.

End Globs.

(** ** FilterEngine *)

Section Filters.

Import RegExp Varro Spec.

Lemma some_hit {A : Type} (f : A -> outcome bool) (l : list A) (x : A) :
  In x l -> f x = Returns true -> some f l <> Returns false.
Proof.
  induction l as [|y l IH]; intros Hin Hx; [contradiction|].
  simpl. destruct Hin as [->|Hin].
  - rewrite Hx. simpl. discriminate.
  - destruct (f y) as [[|]| |]; simpl; try discriminate. now apply IH.
Qed.

Lemma some_returns {A : Type} (f : A -> outcome bool) (l : list A) :
  (forall x, In x l -> exists hit, f x = Returns hit) ->
  exists hit, some f l = Returns hit.
Proof.
  induction l as [|y l IH]; intros H; simpl; [now exists false|].
  destruct (H y (or_introl eq_refl)) as [[|] ->]; simpl; [now exists true|].
  apply IH. intros x Hx. apply H. now right.
Qed.

Lemma scanned_incl {A : Type} (f : A -> outcome bool) (l : list A) :
  forall x, In x (scanned f l) -> In x l.
Proof.
  induction l as [|y l IH]; intros x Hx; [contradiction|].
  cbn [scanned] in Hx. destruct (f y) as [[|]| |]; cbn in Hx;
    try (destruct Hx as [->|[]]; now left).
  destruct Hx as [->|Hx]; [now left | right; now apply IH].
Qed.

(** A scan returns as soon as the callback returns on the elements it is
    handed. *)
Lemma some_returns_scanned {A : Type} (f : A -> outcome bool) (l : list A) :
  (forall x, In x (scanned f l) -> exists hit, f x = Returns hit) ->
  exists hit, some f l = Returns hit.
Proof.
  induction l as [|y l IH]; intros H; cbn [some]; [now exists false|].
  cbn [scanned] in H. destruct (f y) as [[|]| |] eqn:E; cbn [bind_outcome].
  - now exists true.
  - apply IH. intros x Hx. apply H. now right.
  - destruct (H y (or_introl eq_refl)) as [hit Hy]. congruence.
  - destruct (H y (or_introl eq_refl)) as [hit Hy]. congruence.
Qed.

(** The exception of the callback on a scanned element is the exception of
    the scan. *)
Lemma some_throws_scanned {A : Type} (f : A -> outcome bool) (l : list A) (x : A) :
  In x (scanned f l) -> f x = Throws -> some f l = Throws.
Proof.
  induction l as [|y l IH]; intros Hin Hx; [contradiction|].
  cbn [scanned] in Hin. cbn [some].
  destruct (f y) as [[|]| |] eqn:E; cbn [bind_outcome].
  - destruct Hin as [->|[]]. congruence.
  - destruct Hin as [->|Hin]; [congruence | now apply IH].
  - reflexivity.
  - destruct Hin as [->|[]]. congruence.
Qed.

Lemma some_beyond_scanned {A : Type} (f : A -> outcome bool) (l : list A) :
  some f l = Beyond -> exists x, In x (scanned f l) /\ f x = Beyond.
Proof.
  induction l as [|y l IH]; cbn [some scanned]; [discriminate|].
  destruct (f y) as [[|]| |] eqn:E; cbn [bind_outcome]; try discriminate.
  - intros H. destruct (IH H) as (x & Hx & Hb). exists x. split; [now right|assumption].
  - intros _. exists y. split; [now left|assumption].
Qed.

Lemma filters_with_not_true (regexp : string -> string -> outcome bool)
      (req : request) (flt : filter_config) (pattern : string) :
  In pattern (excludePatterns flt) ->
  regexp (path req) pattern = Returns true ->
  forall verdict, filters_with regexp req flt = Returns verdict -> verdict = false.
Proof.
  intros Hin Hp verdict. unfold filters_with.
  destruct (negb (includes (methods flt) (method req))); [now injection 1|].
  destruct (some _ (urlPatterns flt)) as [[|]| |]; simpl; try discriminate;
    [|now injection 1].
  pose proof (some_hit (fun p => regexp (path req) p) _ _ Hin Hp) as Hs.
  destruct (some _ (excludePatterns flt)) as [[|]| |]; simpl; try discriminate.
  - now injection 1.
  - now contradiction Hs.
Qed.

Lemma matchesFilters_not_true (req : request) (flt : filter_config) (pattern : string) :
  In pattern (excludePatterns flt) ->
  matchesPattern (path req) pattern = Returns true ->
  forall verdict, matchesFilters req flt = Returns verdict -> verdict = false.
Proof. apply filters_with_not_true. Qed.

(** The inclusion patterns scanned are evaluated, the literal [*] apart. *)
Lemma evaluated_inclusion (regexp : string -> string -> outcome bool)
      (req : request) (flt : filter_config) (p : string) :
  includes (methods flt) (method req) = true ->
  In p (scanned (fun pattern => if String.eqb pattern "*" then Returns true
                                else regexp (path req) pattern) (urlPatterns flt)) ->
  p <> "*" ->
  In p (evaluated regexp req flt).
Proof.
  intros Hm Hin Hne. unfold evaluated. rewrite Hm. cbn [negb].
  apply List.in_or_app. left. apply List.filter_In. split; [assumption|].
  now destruct (String.eqb_spec p "*").
Qed.

Lemma evaluated_exclusion (regexp : string -> string -> outcome bool)
      (req : request) (flt : filter_config) (p : string) :
  includes (methods flt) (method req) = true ->
  some (fun pattern => if String.eqb pattern "*" then Returns true
                       else regexp (path req) pattern) (urlPatterns flt)
  = Returns true ->
  In p (scanned (regexp (path req)) (excludePatterns flt)) ->
  In p (evaluated regexp req flt).
Proof.
  intros Hm Hs Hin. unfold evaluated. rewrite Hm, Hs. cbn [negb].
  apply List.in_or_app. now right.
Qed.

(** A scan depends on its callback through the elements it is handed
    only. *)
Lemma some_agree_scanned {A : Type} (f g : A -> outcome bool) (l : list A) :
  (forall x, In x (scanned f l) -> g x = f x) -> some g l = some f l.
Proof.
  induction l as [|y l IH]; intros H; [reflexivity|]. cbn [some scanned] in *.
  rewrite (H y) by (destruct (f y) as [[|]| |]; now left).
  destruct (f y) as [[|]| |] eqn:E; cbn [bind_outcome]; try reflexivity.
  apply IH. intros x Hx. apply H. now right.
Qed.

Lemma filters_with_agree (regexp regexp' : string -> string -> outcome bool)
      (req : request) (flt : filter_config) :
  (forall p, In p (evaluated regexp req flt) ->
             regexp' (path req) p = regexp (path req) p) ->
  filters_with regexp' req flt = filters_with regexp req flt.
Proof.
  intros H. unfold filters_with.
  destruct (includes (methods flt) (method req)) eqn:Hm; cbn [negb]; [|reflexivity].
  set (inc := fun p => if String.eqb p "*" then Returns true else regexp (path req) p).
  set (inc' := fun p => if String.eqb p "*" then Returns true else regexp' (path req) p).
  assert (Hi : some inc' (urlPatterns flt) = some inc (urlPatterns flt)).
  { apply some_agree_scanned. intros p Hs. unfold inc, inc'.
    destruct (String.eqb_spec p "*") as [|Hne]; [reflexivity|].
    apply H. now apply evaluated_inclusion. }
  rewrite Hi. destruct (some inc (urlPatterns flt)) as [[|]| |] eqn:Hs;
    cbn [bind_outcome negb]; try reflexivity.
  rewrite (some_agree_scanned (fun p => regexp (path req) p)
                              (fun p => regexp' (path req) p)); [reflexivity|].
  intros p Hp. apply H. now apply evaluated_exclusion.
Qed.

(** C4, as stated: an input on which an exclusion pattern matches the path
    and [matchesFilters] does not return false, because the inclusion
    pattern evaluated before it is not a valid regular expression. *)
Lemma exclusion_without_false_result :
  In "/api" (excludePatterns (mkFilters ["GET"] ["("] ["/api"]))
  /\ matchesPattern (path (mkRequest "GET" "/api" "/api" [] [] None)) "/api"
     = Returns true
  /\ matchesFilters (mkRequest "GET" "/api" "/api" [] [] None)
                    (mkFilters ["GET"] ["("] ["/api"]) = Throws
  /\ matchesFilters (mkRequest "GET" "/api" "/api" [] [] None)
                    (mkFilters ["GET"] ["("] ["/api"]) <> Returns false.
Proof.
  split; [now left|]. split; [reflexivity|]. split; [reflexivity|discriminate].
Qed.

(** C4, amended: when an exclusion pattern matches the path,
    [matchesFilters] never returns true, whatever the method and the
    inclusion patterns are.  It returns false when every pattern it
    evaluates is a valid regular expression, and when one of them is not,
    the SyntaxError of that pattern escapes; no other pattern counts, the
    patterns that the scans do not reach may be anything.  The statement is
    about [filters_with regexp], the method [matchesFilters] with [regexp]
    for what [new RegExp(...).test(...)] does on a path and a pattern:
    [matchesPattern] is one such function, and any other one is covered as
    well, so that nothing depends on the patterns that [matchesPattern]
    leaves undetermined: when [regexp] answers on every pattern evaluated,
    the call returns false or throws, and [matchesFilters] itself gives the
    result of [filters_with regexp] as soon as [matchesPattern] agrees with
    [regexp] on the patterns evaluated. *)
Theorem exclusion_precedence (regexp : string -> string -> outcome bool)
        (req : request) (flt : filter_config) (pattern : string) :
  In pattern (excludePatterns flt) ->
  regexp (path req) pattern = Returns true ->
  filters_with regexp req flt <> Returns true
  /\ ((forall p, In p (evaluated regexp req flt) ->
                 exists hit, regexp (path req) p = Returns hit) ->
      filters_with regexp req flt = Returns false)
  /\ ((exists p, In p (evaluated regexp req flt) /\ regexp (path req) p = Throws) ->
      filters_with regexp req flt = Throws)
  /\ ((forall p, In p (evaluated regexp req flt) -> regexp (path req) p <> Beyond) ->
      filters_with regexp req flt = Returns false
      \/ filters_with regexp req flt = Throws)
  /\ (forall p, In p (evaluated regexp req flt) ->
                In p (urlPatterns flt) \/ In p (excludePatterns flt))
  /\ ((forall p, In p (evaluated regexp req flt) ->
                 matchesPattern (path req) p = regexp (path req) p) ->
      matchesFilters req flt = filters_with regexp req flt).
Proof.
  intros Hin Hp.
  set (inc := fun p => if String.eqb p "*" then Returns true else regexp (path req) p).
  assert (Hinc : forall p, p <> "*" -> inc p = regexp (path req) p).
  { intros p Hne. unfold inc. now destruct (String.eqb_spec p "*"). }
  split; [|split; [|split; [|split; [|split]]]].
  - intros H. now apply (filters_with_not_true _ _ _ _ Hin Hp) in H.
  - intros Hall.
    assert (exists verdict, filters_with regexp req flt = Returns verdict) as [v Hv].
    { unfold filters_with. fold inc.
      destruct (includes (methods flt) (method req)) eqn:Hm; cbn [negb]; [|eauto].
      destruct (some_returns_scanned inc (urlPatterns flt)) as [i Hi].
      { intros p Hs. destruct (String.eqb_spec p "*") as [->|Hne]; [now exists true|].
        rewrite (Hinc p Hne). apply Hall. now apply evaluated_inclusion. }
      rewrite Hi. cbn [bind_outcome]. destruct i; cbn [negb]; [|eauto].
      destruct (some_returns_scanned (fun p => regexp (path req) p) (excludePatterns flt))
        as [e He].
      { intros p Hs. apply Hall. now apply evaluated_exclusion. }
      rewrite He. cbn [bind_outcome]. eauto. }
    rewrite Hv. f_equal. now apply (filters_with_not_true _ _ _ _ Hin Hp).
  - intros (p & Hev & Ht). unfold evaluated in Hev. unfold filters_with.
    fold inc in Hev |- *.
    destruct (includes (methods flt) (method req)); cbn [negb] in *; [|contradiction].
    apply List.in_app_or in Hev. destruct Hev as [Hev|Hev].
    + apply List.filter_In in Hev. destruct Hev as [Hs Hne].
      destruct (String.eqb_spec p "*") as [|Hne']; [discriminate|].
      rewrite (some_throws_scanned inc _ p Hs); [reflexivity|].
      now rewrite (Hinc p Hne').
    + destruct (some inc (urlPatterns flt)) as [[|]| |]; try contradiction.
      cbn [bind_outcome negb].
      now rewrite (some_throws_scanned (fun q => regexp (path req) q) _ p Hev Ht).
  - intros Hall.
    assert (Hnb : filters_with regexp req flt <> Beyond);
      [|pose proof (filters_with_not_true _ _ _ _ Hin Hp) as Hnt;
        destruct (filters_with regexp req flt) as [[|]| |]; auto;
        [now specialize (Hnt true eq_refl) | now contradiction Hnb]].
    intros H. unfold filters_with in H. fold inc in H.
    destruct (includes (methods flt) (method req)) eqn:Hm; cbn [negb] in H;
      [|discriminate].
    destruct (some inc (urlPatterns flt)) as [[|]| |] eqn:Hi; cbn [bind_outcome negb] in H;
      try discriminate.
    + destruct (some (fun p => regexp (path req) p) (excludePatterns flt))
        as [e| |] eqn:He; cbn [bind_outcome] in H; try discriminate.
      destruct (some_beyond_scanned _ _ He) as (p & Hs & Hb).
      apply (Hall p); [|exact Hb]. now apply evaluated_exclusion.
    + destruct (some_beyond_scanned _ _ Hi) as (p & Hs & Hb).
      destruct (String.eqb_spec p "*") as [->|Hne].
      * unfold inc in Hb. cbn in Hb. discriminate.
      * apply (Hall p); [now apply evaluated_inclusion|]. now rewrite <- (Hinc p Hne).
  - intros p Hev. unfold evaluated in Hev.
    destruct (negb (includes (methods flt) (method req))); [contradiction|].
    apply List.in_app_or in Hev. destruct Hev as [Hev|Hev].
    + left. apply List.filter_In in Hev. now apply (scanned_incl _ _ _ (proj1 Hev)).
    + right. destruct (some _ (urlPatterns flt)) as [[|]| |]; try contradiction.
      now apply (scanned_incl _ _ _ Hev).
  - apply filters_with_agree.
Qed.

Lemma exclusion_precedence_witness :
  matchesFilters (mkRequest "GET" "/api" "/api" [] [] None)
                 (mkFilters ["GET"] ["*"; "("] ["/api"; "("])
    <> Returns true
  /\ matchesFilters (mkRequest "GET" "/api" "/api" [] [] None)
                    (mkFilters ["GET"] ["*"; "("] ["/api"; "("])
     = Returns false.
Proof.
  destruct (exclusion_precedence matchesPattern
              (mkRequest "GET" "/api" "/api" [] [] None)
              (mkFilters ["GET"] ["*"; "("] ["/api"; "("])
              "/api" (or_introl eq_refl) eq_refl)
    as (H1 & H2 & _).
  split; [exact H1|]. apply H2.
  intros p [<-|[]]. now exists true.
Defined.

End Filters.

(** ** KeyGenerator *)

Section Keys.

Import JSON Varro Spec.

Lemma is_empty_app_cons (a : string) (c : ascii) (b : string) :
  Str.is_empty (a ++ String c b) = false.
Proof. destruct a; reflexivity. Qed.

Lemma serialize_pairs_nonempty (pairs : list (string * string)) :
  forall p output,
    Str.is_empty output = false ->
    serialize_pairs (p :: pairs) output =
    output ++ "&" ++ Str.join "&" (List.map pair_text (p :: pairs)).
Proof.
  induction pairs as [|p' pairs IH]; intros [name value] output H.
  - simpl. rewrite H. unfold pair_text. simpl. now rewrite !sapp_assoc.
  - change (serialize_pairs ((name, value) :: p' :: pairs) output)
      with (serialize_pairs (p' :: pairs)
              ((if Str.is_empty output then output else output ++ "&")
               ++ pair_text (name, value))).
    rewrite H, IH.
    + change (List.map pair_text ((name, value) :: p' :: pairs))
        with (pair_text (name, value) :: List.map pair_text (p' :: pairs)).
      change (Str.join "&" (pair_text (name, value) :: List.map pair_text (p' :: pairs)))
        with (pair_text (name, value) ++ "&" ++ Str.join "&" (List.map pair_text (p' :: pairs))).
      now rewrite !sapp_assoc.
    + unfold pair_text. rewrite !sapp_assoc. apply is_empty_app_cons.
Qed.

Lemma serialize_pairs_join (pairs : list (string * string)) :
  serialize_pairs pairs EmptyString = Str.join "&" (List.map pair_text pairs).
Proof.
  destruct pairs as [|[name value] pairs]; [reflexivity|].
  destruct pairs as [|p' pairs]; [reflexivity|].
  change (serialize_pairs ((name, value) :: p' :: pairs) EmptyString)
    with (serialize_pairs (p' :: pairs) (pair_text (name, value))).
  rewrite serialize_pairs_nonempty; [reflexivity|].
  unfold pair_text. apply is_empty_app_cons.
Qed.

Lemma URLSearchParams_join (q : list (string * json)) :
  URLSearchParams_toString q =
  Str.join "&" (List.map (fun kv => pair_text (fst kv, ToString (snd kv))) q).
Proof.
  unfold URLSearchParams_toString. rewrite serialize_pairs_join, List.map_map.
  reflexivity.
Qed.

Lemma join_rendered_empty (l : list (string * string)) :
  Str.is_empty (Str.join "|" (List.map (fun kv => fst kv ++ ":" ++ snd kv) l)) =
  match l with [] => true | _ :: _ => false end.
Proof.
  destruct l as [|x l]; [reflexivity|].
  destruct l as [|y l]; apply is_empty_app_cons.
Qed.

Lemma generateRequestKey_decomposed (m : matching_config) (req : request) :
  generateRequestKey m req =
  case_step m ((method req ++ ":" ++ path req) ++ query_step m req
               ++ headers_step m req ++ body_step m req).
Proof.
  unfold generateRequestKey, case_step, query_step, headers_step, body_step.
  f_equal.
  rewrite URLSearchParams_join.
  assert (Hq : (includeQuery m && (0 <? List.length (query req))%nat) =
               match query req with [] => false | _ :: _ => includeQuery m end).
  { destruct (query req); simpl; [apply andb_false_r | apply andb_true_r]. }
  rewrite Hq. clear Hq.
  rewrite join_rendered_empty.
  set (base := method req ++ ":" ++ path req).
  set (kept := sort_entries _).
  destruct (query req) as [|kv q]; [|destruct (includeQuery m)];
    (destruct (includeHeaders m); [destruct kept as [|e kept']|]);
    (destruct (body req) as [b|]; [destruct (includeBody m && truthy b)|]);
    cbn [negb]; rewrite ?sapp_assoc, ?sapp_nil_r; cbn [append];
    rewrite ?sapp_assoc, ?sapp_nil_r; reflexivity.
Qed.


(** C3: the key computed without case sensitivity is the lower-cased key
    computed with case sensitivity, the rest of the configuration and the
    request being the same. *)
Theorem generateRequestKey_case_relation (q h b : bool) (req : request) :
  generateRequestKey (mkMatching q h b false) req =
  Str.toLowerCase (generateRequestKey (mkMatching q h b true) req).
Proof. reflexivity. Qed.

Lemma has_key_document (r : recording) :
  has_key (rec_requestKey r) (document r) = true.
Proof. unfold has_key, document. cbn. apply String.eqb_refl. Qed.

(** C2: the key is a function of the matching configuration and of the
    method, path, query, headers and body of the request, and of nothing
    else: not of the url, the clock, the response, nor of the state of the
    instance.  The key stored in a recording is the key derived again from
    the same request under the same configuration, whatever the clock
    readings and the response were. *)
Theorem generateRequestKey_deterministic :
  (forall m req req',
      method req = method req' -> path req = path req' ->
      query req = query req' -> headers req = headers req' ->
      body req = body req' ->
      generateRequestKey m req = generateRequestKey m req')
  /\ (forall cfg req stamp stamp' res res' text text',
        rec_requestKey (build_recording cfg stamp req res text) =
        rec_requestKey (build_recording cfg stamp' req res' text'))
  /\ (forall cfg req stamp res text,
        has_key (generateRequestKey (matching cfg) req)
                (document (build_recording cfg stamp req res text)) = true).
Proof.
  split; [|split].
  - intros m req req' Hm Hp Hq Hh Hb. unfold generateRequestKey.
    now rewrite Hm, Hp, Hq, Hh, Hb.
  - reflexivity.
  - intros. apply (has_key_document (build_recording cfg stamp req res text)).
Qed.


Lemma generateRequestKey_deterministic_witness :
  generateRequestKey (mkMatching true true true false)
    (mkRequest "GET" "/api/users?page=1" "/api/users" [("page", JStr "1")]
               [("accept", "*/*")] None)
  = generateRequestKey (mkMatching true true true false)
      (mkRequest "GET" "/api/users?page=1&" "/api/users" [("page", JStr "1")]
                 [("accept", "*/*")] None).
Proof.
  destruct generateRequestKey_deterministic as (H & _).
  apply H; reflexivity.
Defined.

End Keys.

(** ** FilenameTemplater *)

Section Filenames.

Import Varro Spec.

(** Every underscore of a squeezed text stands alone. *)
Lemma collapse_underscore (t : string) :
  collapse (String "_" t) = String "_" (collapse (trim_leading t)).
Proof.
  induction t as [|c t IH]; [reflexivity|].
  cbn [collapse trim_leading starts_with_underscore Ascii.eqb Bool.eqb].
  change (Ascii.eqb "_" "_") with true. cbn [andb].
  destruct (Ascii.eqb c "_") eqn:E.
  - apply Ascii.eqb_eq in E. subst c. exact IH.
  - cbn [collapse]. rewrite E. reflexivity.
Qed.

Lemma squeeze_collapse (s : string) :
  squeeze false s = collapse s /\ squeeze true s = collapse (trim_leading s).
Proof.
  induction s as [|c s [IH1 IH2]]; [split; reflexivity|].
  cbn [squeeze trim_leading]. destruct (Ascii.eqb c "_") eqn:E.
  - apply Ascii.eqb_eq in E. subst c. rewrite collapse_underscore, IH2. now split.
  - cbn [collapse]. rewrite E, IH1. now split.
Qed.

Lemma starts_collapse (s : string) :
  starts_with_underscore (collapse s) = starts_with_underscore s.
Proof.
  induction s as [|c s IH]; [reflexivity|]. cbn [collapse].
  destruct (Ascii.eqb c "_") eqn:E; destruct (starts_with_underscore s) eqn:F;
    cbn [andb starts_with_underscore]; rewrite ?E; congruence.
Qed.

Lemma no_run_collapse (s : string) : no_run (collapse s) = true.
Proof.
  induction s as [|c s IH]; [reflexivity|]. cbn [collapse].
  destruct (Ascii.eqb c "_" && starts_with_underscore s) eqn:E; [exact IH|].
  cbn [no_run]. now rewrite starts_collapse, E, IH.
Qed.

Lemma drop_final_trim (s : string) :
  no_run s = true -> drop_final_underscore s = trim_trailing s.
Proof.
  induction s as [|c s IH]; [reflexivity|]. intros H.
  cbn [no_run] in H. apply andb_true_iff in H. destruct H as [H1 H2].
  specialize (IH H2). destruct s as [|d s].
  - cbn. destruct (Ascii.eqb c "_"); reflexivity.
  - change (drop_final_underscore (String c (String d s)))
      with (String c (drop_final_underscore (String d s))).
    rewrite IH. cbn [trim_trailing].
    set (t' := trim_trailing s) in *.
    cbn [starts_with_underscore] in H1.
    destruct (Ascii.eqb c "_") eqn:Ec; cbn [andb] in *; [|reflexivity].
    apply negb_true_iff in H1. rewrite H1. cbn [andb]. reflexivity.
Qed.

Lemma strip_edges_cons (c : ascii) (t : string) :
  strip_edges (String c t) =
  if Ascii.eqb c "_" then drop_final_underscore t
  else drop_final_underscore (String c t).
Proof. destruct c as [[] [] [] [] [] [] [] []]; reflexivity. Qed.

Lemma no_run_tail (c : ascii) (t : string) : no_run (String c t) = true -> no_run t = true.
Proof. cbn [no_run]. intros H. now apply andb_true_iff in H. Qed.

Lemma strip_edges_trim (s : string) :
  no_run s = true -> strip_edges s = trim_trailing (trim_leading s).
Proof.
  destruct s as [|c t]; [reflexivity|]. intros H.
  rewrite strip_edges_cons. cbn [trim_leading].
  destruct (Ascii.eqb c "_") eqn:E.
  - pose proof (no_run_tail _ _ H) as Ht. rewrite drop_final_trim by assumption.
    cbn [no_run] in H. rewrite E in H. cbn [andb] in H.
    apply andb_true_iff in H. destruct H as [H _]. apply negb_true_iff in H.
    destruct t as [|d t]; [reflexivity|]. cbn [starts_with_underscore] in H.
    cbn [trim_leading]. now rewrite H.
  - now apply drop_final_trim.
Qed.

Lemma sanitize_url_part (p : string) : sanitize p = url_part p.
Proof.
  unfold sanitize, url_part.
  destruct (squeeze_collapse (underscore_others p)) as [-> _].
  apply strip_edges_trim, no_run_collapse.
Qed.

(** *** Decimal numerals *)








(** *** Replacement *)




Lemma mem_app (c : ascii) (a b : string) :
  Str.mem c (a ++ b) = Str.mem c a || Str.mem c b.
Proof.
  induction a as [|x a IH]; [reflexivity|]. cbn. now rewrite IH, orb_assoc.
Qed.





End Filenames.

(** ** CassetteStore *)

Section Store.

Import JSON Varro Spec.

Variable cfg : config.

Lemma printed_nil (st : state) : printed st [] = st.
Proof. destruct st. unfold printed. cbn. now rewrite List.app_nil_r. Qed.

Lemma printed_app (st : state) (l1 l2 : list console_line) :
  printed (printed st l1) l2 = printed st (l1 ++ l2).
Proof. unfold printed. cbn. now rewrite List.app_assoc. Qed.

Lemma load_document (st : state) (entries : list (string * file))
      (name : string) (value : json) :
  listing st = Some entries ->
  lookup_file name entries = Some (Document value) ->
  load cfg name st = (value, st).
Proof. intros Hl Hf. unfold load. now rewrite Hl, Hf. Qed.

Lemma load_malformed (st : state) (entries : list (string * file))
      (name raw : string) :
  listing st = Some entries ->
  lookup_file name entries = Some (Malformed raw) ->
  load cfg name st =
  (JNull, printed st [WarnCouldNotLoad (path_join (recordingsDir cfg) name)]).
Proof. intros Hl Hf. unfold load. now rewrite Hl, Hf. Qed.

Lemma mapM_load (entries : list (string * file)) (sub : list (string * file)) :
  forall st,
    listing st = Some entries ->
    (forall n f, In (n, f) sub -> lookup_file n entries = Some f) ->
    exists values,
      mapM (load cfg)
           (List.filter (fun name => Str.endsWith name ".json") (List.map fst sub)) st
      = (values, printed st (parse_warnings (recordingsDir cfg) sub))
      /\ List.filter truthy values = parsed_documents sub.
Proof.
  induction sub as [|[n f] sub IH]; intros st Hl Hsub.
  - exists []. cbn. now rewrite printed_nil.
  - assert (Hn := Hsub n f (or_introl eq_refl)).
    assert (Hrest : forall n' f', In (n', f') sub -> lookup_file n' entries = Some f')
      by (intros; apply Hsub; now right).
    cbn [List.map List.filter fst parsed_documents parse_warnings].
    destruct (Str.endsWith n ".json") eqn:E.
    + destruct f as [value|raw].
      * destruct (IH st Hl Hrest) as (values & Hm & Hv).
        exists (value :: values). cbn [mapM]. unfold bind at 1.
        rewrite (load_document st entries n value Hl Hn).
        unfold bind at 1. rewrite Hm. cbn [ret List.filter andb].
        destruct (truthy value); now rewrite Hv.
      * destruct (IH (printed st [WarnCouldNotLoad (path_join (recordingsDir cfg) n)])
                     Hl Hrest) as (values & Hm & Hv).
        exists (JNull :: values). cbn [mapM]. unfold bind at 1.
        rewrite (load_malformed st entries n raw Hl Hn).
        unfold bind at 1. rewrite Hm. cbn [ret List.filter truthy].
        now rewrite printed_app.
    + destruct (IH st Hl Hrest) as (values & Hm & Hv). exists values.
      destruct f; cbn [andb]; now split.
Qed.

Lemma lookup_file_in (entries : list (string * file)) :
  NoDup (List.map fst entries) ->
  forall n f, In (n, f) entries -> lookup_file n entries = Some f.
Proof.
  induction entries as [|[m g] entries IH]; intros Hnd n f Hin; [contradiction|].
  cbn [List.map fst] in Hnd. inversion Hnd as [|? ? Hnotin Hnd']; subst.
  cbn [lookup_file]. destruct Hin as [E|Hin].
  - injection E as -> ->. now rewrite String.eqb_refl.
  - destruct (String.eqb_spec m n) as [->|_]; [|now apply IH].
    exfalso. apply Hnotin. change n with (fst (n, f)). now apply List.in_map.
Qed.

Lemma getRecordings_listing (st : state) (entries : list (string * file)) :
  listing st = Some entries ->
  NoDup (List.map fst entries) ->
  getRecordings cfg st =
  (parsed_documents entries, printed st (parse_warnings (recordingsDir cfg) entries)).
Proof.
  intros Hl Hnd. unfold getRecordings. rewrite Hl.
  destruct (mapM_load entries entries st Hl (lookup_file_in entries Hnd))
    as (values & Hm & Hv).
  unfold bind. rewrite Hm. cbn [ret]. now rewrite Hv.
Qed.

Lemma parsed_documents_in (entries : list (string * file)) (name : string) (value : json) :
  In (name, Document value) entries ->
  Str.endsWith name ".json" = true -> truthy value = true ->
  In value (parsed_documents entries).
Proof.
  induction entries as [|[n f] entries IH]; intros Hin He Ht; [contradiction|].
  destruct Hin as [E|Hin].
  - injection E as -> ->. cbn [parsed_documents]. rewrite He, Ht. now left.
  - specialize (IH Hin He Ht). cbn [parsed_documents]. destruct f; [|exact IH].
    destruct (Str.endsWith n ".json" && truthy value0); [now right | exact IH].
Qed.

Lemma parse_warnings_in (dir : string) (entries : list (string * file)) (name raw : string) :
  In (name, Malformed raw) entries ->
  Str.endsWith name ".json" = true ->
  In (WarnCouldNotLoad (path_join dir name)) (parse_warnings dir entries).
Proof.
  induction entries as [|[n f] entries IH]; intros Hin He; [contradiction|].
  destruct Hin as [E|Hin].
  - injection E as -> ->. cbn [parse_warnings]. rewrite He. now left.
  - specialize (IH Hin He). cbn [parse_warnings]. destruct f; [exact IH|].
    destruct (Str.endsWith n ".json"); [now right | exact IH].
Qed.

Lemma parsed_documents_skip (l1 l2 : list (string * file)) (name raw : string) :
  parsed_documents (l1 ++ (name, Malformed raw) :: l2) =
  (parsed_documents l1 ++ parsed_documents l2)%list.
Proof.
  induction l1 as [|[n f] l1 IH]; [reflexivity|].
  cbn [List.app parsed_documents]. destruct f; [|exact IH].
  destruct (Str.endsWith n ".json" && truthy value); [|exact IH].
  cbn [List.app]. now rewrite IH.
Qed.

(** C8: [getRecordings] always returns.  Over a directory whose file
    names are distinct it returns the documents of the [*.json] files in
    enumeration order, leaves the counter and the directory as they are, and
    prints one warning for each [*.json] file that does not parse.  A file
    that does not parse never hides another file: every [*.json] file that
    parses to a truthy value, as every record does, is in the result, and
    the result is what it would be without the unparsable file. *)
Theorem getRecordings_skips_unparsable (st : state) (entries : list (string * file)) :
  listing st = Some entries ->
  NoDup (List.map fst entries) ->
  getRecordings cfg st =
  (parsed_documents entries, printed st (parse_warnings (recordingsDir cfg) entries))
  /\ (forall name value,
        In (name, Document value) entries ->
        Str.endsWith name ".json" = true -> truthy value = true ->
        In value (fst (getRecordings cfg st)))
  /\ (forall name raw,
        In (name, Malformed raw) entries ->
        Str.endsWith name ".json" = true ->
        In (WarnCouldNotLoad (path_join (recordingsDir cfg) name))
           (console (snd (getRecordings cfg st))))
  /\ (forall l1 l2 name raw,
        entries = (l1 ++ (name, Malformed raw) :: l2)%list ->
        fst (getRecordings cfg st) = (parsed_documents l1 ++ parsed_documents l2)%list).
Proof.
  intros Hl Hnd. rewrite (getRecordings_listing st entries Hl Hnd). cbn [fst snd].
  split; [reflexivity|]. split; [|split].
  - intros name value. apply parsed_documents_in.
  - intros name raw Hin He. unfold printed. cbn [console].
    apply List.in_or_app. right. now apply (parse_warnings_in _ _ name raw).
  - intros l1 l2 name raw ->. apply parsed_documents_skip.
Qed.

End Store.

Section StoreExamples.

Import JSON Varro Spec.

Lemma getRecordings_skips_unparsable_witness :
  getRecordings defaultConfig
    (mkState 0 (Some [("a.json", Malformed "{"); ("b.json", Document (JObj []));
                      ("notes.txt", Malformed "x")])
             (fun _ => None) (fun _ => false) Str.ltb [])
  = ([JObj []],
     mkState 0 (Some [("a.json", Malformed "{"); ("b.json", Document (JObj []));
                      ("notes.txt", Malformed "x")])
             (fun _ => None) (fun _ => false) Str.ltb [WarnCouldNotLoad "recordings/a.json"]).
Proof.
  refine (proj1 (getRecordings_skips_unparsable defaultConfig
                   (mkState 0 (Some [("a.json", Malformed "{");
                                     ("b.json", Document (JObj []));
                                     ("notes.txt", Malformed "x")])
                            (fun _ => None) (fun _ => false) Str.ltb [])
                   [("a.json", Malformed "{"); ("b.json", Document (JObj []));
                    ("notes.txt", Malformed "x")] eq_refl _)).
  repeat constructor; cbn; intuition discriminate.
Defined.

End StoreExamples.

(** ** Lookup *)

Section Lookup.

Import JSON Varro Spec.

Variable cfg : config.

Lemma same_store_refl (st : state) : same_store st st.
Proof. now repeat split. Qed.


Lemma same_store_printed (st : state) (lines : list console_line) :
  same_store st (printed st lines).
Proof. now repeat split. Qed.

Lemma load_same_store (name : string) (st : state) :
  same_store st (snd (load cfg name st)).
Proof.
  unfold load. destruct (listing st) as [entries|].
  - destruct (lookup_file name entries) as [[value|raw]|];
      try apply same_store_refl; apply (same_store_printed st).
  - apply (same_store_printed st).
Qed.





End Lookup.

Section LookupExamples.

Import JSON Varro Spec.


End LookupExamples.

(** ** Paths and the directory *)

Section Files.

Import JSON Path Varro Spec.

Lemma rev_onto_app (s acc : string) : Str.rev_onto s acc = Str.rev s ++ acc.
Proof.
  unfold Str.rev. revert acc. induction s as [|c s IH]; intros acc; [reflexivity|].
  cbn [Str.rev_onto]. rewrite (IH (String c acc)), (IH (String c EmptyString)).
  now rewrite sapp_assoc.
Qed.

Lemma rev_app (a b : string) : Str.rev (a ++ b) = Str.rev b ++ Str.rev a.
Proof.
  induction a as [|c a IH].
  - cbn. now rewrite sapp_nil_r.
  - unfold Str.rev in *. cbn [append Str.rev_onto].
    rewrite (rev_onto_app (a ++ b)), (rev_onto_app a). unfold Str.rev.
    now rewrite IH, sapp_assoc.
Qed.

Lemma strip_prefix_app (p s : string) : Str.strip_prefix p (p ++ s) = Some s.
Proof.
  induction p as [|c p IH]; [now destruct s|].
  cbn. now rewrite Ascii.eqb_refl.
Qed.

Lemma endsWith_app (s suffix : string) : Str.endsWith (s ++ suffix) suffix = true.
Proof. unfold Str.endsWith. now rewrite rev_app, strip_prefix_app. Qed.

(** *** Segments *)

Lemma segments_nonempty (s : string) : segments s <> [].
Proof.
  destruct s as [|c t]; cbn [segments]; [discriminate|].
  destruct (Ascii.eqb c "/"); [discriminate|]. destruct (segments t); discriminate.
Qed.

Lemma segments_slash (a b : string) :
  segments (a ++ String "/" b) = (segments a ++ segments b)%list.
Proof.
  induction a as [|c a IH]; [reflexivity|].
  cbn [append segments]. destruct (Ascii.eqb c "/"); rewrite IH; [reflexivity|].
  pose proof (segments_nonempty a). destruct (segments a); [contradiction|reflexivity].
Qed.

Lemma segments_plain (s : string) : Str.mem "/" s = false -> segments s = [s].
Proof.
  induction s as [|c s IH]; [reflexivity|]. cbn [Str.mem segments]. intros H.
  apply orb_false_iff in H. destruct H as [Hc Hs].
  rewrite Ascii.eqb_sym, Hc. now rewrite (IH Hs).
Qed.

(** Text without separator added to a path goes to its last segment. *)
Lemma segments_app_plain (a b : string) :
  Str.mem "/" b = false ->
  segments (a ++ b) =
  (List.removelast (segments a) ++ [(List.last (segments a) EmptyString ++ b)%string])%list.
Proof.
  intros Hb. induction a as [|c a IH]; [now apply segments_plain|].
  cbn [append segments]. pose proof (segments_nonempty a) as Hne.
  destruct (Ascii.eqb c "/").
  - rewrite IH. destruct (segments a) as [|x l]; [contradiction|reflexivity].
  - rewrite IH. destruct (segments a) as [|x [|y l]]; [contradiction|reflexivity|].
    reflexivity.
Qed.



Lemma absolute_joined (dir name : string) :
  Str.is_empty dir = false -> absolute (joined dir name) = absolute dir.
Proof.
  destruct dir as [|c dir]; [discriminate|]. intros _. unfold joined. cbn [Str.is_empty].
  now destruct (Str.is_empty name).
Qed.

(** An ordinary segment is kept. *)
Lemma enter_ordinary (above_root : bool) (kept : list string) (segment : string) :
  segment <> EmptyString -> segment <> "." -> segment <> ".." ->
  enter above_root kept segment = segment :: kept.
Proof.
  intros H1 H2 H3. unfold enter.
  destruct (String.eqb_spec segment EmptyString); [contradiction|].
  destruct (String.eqb_spec segment "."); [contradiction|].
  destruct (String.eqb_spec segment ".."); [contradiction|reflexivity].
Qed.

(** The segments of the name are met after those of the directory. *)
Lemma remaining_joined (dir name : string) :
  Str.is_empty dir = false -> name <> EmptyString ->
  remaining (joined dir name) =
  List.fold_left (enter (negb (absolute dir))) (segments name) (remaining dir).
Proof.
  intros Hd Hn. unfold remaining. rewrite (absolute_joined dir name Hd).
  unfold joined. rewrite Hd. destruct name as [|c name]; [now contradiction Hn|].
  cbn [Str.is_empty]. change (dir ++ "/" ++ String c name)
    with (dir ++ String "/" (String c name)).
  now rewrite segments_slash, List.fold_left_app.
Qed.



Lemma suffixed_ordinary (s : string) :
  s ++ ".json" <> EmptyString /\ s ++ ".json" <> "." /\ s ++ ".json" <> "..".
Proof.
  assert (H : 5 <= String.length (s ++ ".json")) by (rewrite slength_app; cbn; lia).
  repeat split; intros E; rewrite E in H; cbn in H; lia.
Qed.

(** The entry that a file name designates carries the suffix of the
    name. *)
Lemma target_entry_suffix (dir stem entry : string) :
  target dir (stem ++ ".json") = Entry entry ->
  Str.endsWith entry ".json" = true.
Proof.
  unfold target. destruct (Str.is_empty dir) eqn:Hd.
  { destruct (remaining _); cbn [negb andb]; discriminate. }
  destruct (suffixed_ordinary stem) as (H1 & H2 & H3).
  rewrite (remaining_joined dir _ Hd H1).
  rewrite (segments_app_plain stem ".json" eq_refl), List.fold_left_app.
  cbn [List.fold_left].
  destruct (suffixed_ordinary (List.last (segments stem) EmptyString)) as (L1 & L2 & L3).
  rewrite (enter_ordinary _ _ _ L1 L2 L3).
  destruct (_ && _); [|discriminate]. intros E. injection E as <-. apply endsWith_app.
Qed.

(** *** Writing into the directory *)

Lemma rewrite_file_names (name : string) (f : file) (entries : list (string * file)) :
  List.map fst (rewrite_file name f entries) = List.map fst entries.
Proof.
  induction entries as [|[m g] entries IH]; [reflexivity|]. cbn [rewrite_file].
  destruct (String.eqb m name); cbn [List.map fst]; [reflexivity | now rewrite IH].
Qed.

Lemma place_file_perm (before : string -> string -> bool) (name : string) (f : file)
      (entries : list (string * file)) :
  Permutation ((name, f) :: entries) (place_file before name f entries).
Proof.
  induction entries as [|[m g] entries IH]; [apply Permutation_refl|].
  cbn [place_file]. destruct (before name m); [apply Permutation_refl|].
  eapply Permutation_trans; [apply perm_swap|]. now apply perm_skip.
Qed.


Lemma lookup_file_some (name : string) (f : file) (entries : list (string * file)) :
  lookup_file name entries = Some f -> In (name, f) entries.
Proof.
  induction entries as [|[m g] entries IH]; [discriminate|]. cbn [lookup_file].
  destruct (String.eqb_spec m name) as [->|Hne].
  - intros E. injection E as ->. now left.
  - intros H. right. now apply IH.
Qed.



Lemma upsert_names (before : string -> string -> bool) (name : string) (f : file)
      (entries : list (string * file)) :
  forall n, In n (List.map fst (upsert before name f entries)) ->
            n = name \/ In n (List.map fst entries).
Proof.
  intros n. unfold upsert. destruct (lookup_file name entries).
  - rewrite rewrite_file_names. auto.
  - intros H.
    apply (Permutation_in _ (Permutation_sym
             (Permutation_map fst (place_file_perm before name f entries)))) in H.
    destruct H as [<-|H]; auto.
Qed.




Lemma upsert_keeps (before : string -> string -> bool) (name : string) (f : file)
      (entries : list (string * file)) :
  forall n g, In (n, g) entries -> n <> name -> In (n, g) (upsert before name f entries).
Proof.
  intros n g Hin Hne. unfold upsert. destruct (lookup_file name entries).
  - induction entries as [|[m h] entries IH]; [contradiction|]. cbn [rewrite_file].
    destruct (String.eqb_spec m name) as [->|_].
    + destruct Hin as [E|Hin]; [|now right]. injection E as <- <-. now contradiction Hne.
    + destruct Hin as [E|Hin]; [now left | right; now apply IH].
  - apply (Permutation_in _ (place_file_perm before name f entries)). now right.
Qed.











End Files.

(** ** Round trip *)

Section RoundTrip.

Import JSON Varro Spec.

Variable cfg : config.









Lemma findRecording_hit (now : Z) (req : request) (st : state) (v : json) :
  List.find (has_key (generateRequestKey (matching cfg) req)) (fst (getRecordings cfg st))
  = Some v ->
  findRecording cfg now req st = (v, snd (getRecordings cfg st)).
Proof.
  intros Hf. unfold findRecording. unfold bind at 1.
  destruct (getRecordings cfg st) as [recordings st1]. cbn [fst snd] in *.
  now rewrite Hf.
Qed.





End RoundTrip.

Section RoundTripExamples.

Import JSON Varro Spec.



End RoundTripExamples.

(** * Further properties *)

(** ** Patterns *)

Section PatternsMore.

Import RegExp Varro Spec Aux.

Lemma literal_is_wildcard (p : string) :
  literal_pattern p = true -> wildcard_only p = true.
Proof.
  unfold literal_pattern, wildcard_only.
  induction p as [|c p IH]; [reflexivity|]. cbn [Str.all]. intros H.
  apply andb_true_iff in H. destruct H as [Hc Hp].
  now rewrite Hc, orb_true_r, IH.
Qed.

Lemma stars_are_wildcard (p : string) :
  stars_only p = true -> wildcard_only p = true.
Proof.
  unfold stars_only, wildcard_only.
  induction p as [|c p IH]; [reflexivity|]. cbn [Str.all]. intros H.
  apply andb_true_iff in H. destruct H as [Hc Hp].
  now rewrite Hc, IH.
Qed.

Lemma literal_matches (p : string) :
  literal_pattern p = true ->
  forall b s rest, Matches (mk_seq (glob_terms p)) b s rest <-> s = p.
Proof.
  unfold literal_pattern. induction p as [|c p IH]; intros H b s rest.
  - apply matches_eps.
  - cbn [Str.all] in H. apply andb_true_iff in H. destruct H as [Hc Hp].
    apply negb_true_iff in Hc.
    assert (Ascii.eqb c "*" = false) as Hstar.
    { destruct (Ascii.eqb_spec c "*") as [->|]; [discriminate Hc | reflexivity]. }
    cbn [glob_terms]. unfold glob_term. rewrite Hstar, matches_mk_seq_cons. split.
    + intros (s1 & s2 & -> & H1 & H2). apply matches_chr in H1. subst s1.
      apply IH in H2; [|assumption]. now subst s2.
    + intros ->. exists (String c EmptyString), p. repeat split; [constructor|].
      now apply IH.
Qed.

(** X1: A pattern without any character of regular-expression syntax is a
    substring test: [matchesPattern] returns, and returns true exactly when
    the pattern occurs in the path. *)
Theorem matchesPattern_literal (url pattern : string) :
  literal_pattern pattern = true ->
  (exists hit, matchesPattern url pattern = Returns hit)
  /\ (matchesPattern url pattern = Returns true <->
      exists pre post, url = pre ++ pattern ++ post).
Proof.
  intros H. pose proof (compile_wildcard pattern (literal_is_wildcard _ H)) as Hc.
  rewrite (matchesPattern_compiled _ _ _ Hc). split; [eauto|].
  rewrite returns_true_iff, test_within. unfold MatchesWithin. split.
  - intros (pre & mid & post & -> & Hm). apply (literal_matches _ H) in Hm.
    subst mid. now exists pre, post.
  - intros (pre & post & ->). exists pre, pattern, post. split; [reflexivity|].
    now apply literal_matches.
Qed.

Lemma matchesPattern_literal_witness :
  (exists hit, matchesPattern "/v2/api/x" "/api" = Returns hit)
  /\ (matchesPattern "/v2/api/x" "/api" = Returns true <->
      exists pre post, "/v2/api/x" = pre ++ "/api" ++ post).
Proof. apply (matchesPattern_literal "/v2/api/x" "/api"). reflexivity. Defined.

Lemma stars_match_empty (p : string) :
  stars_only p = true ->
  forall b rest, Matches (mk_seq (glob_terms p)) b EmptyString rest.
Proof.
  unfold stars_only. induction p as [|c p IH]; intros H b rest; [constructor|].
  cbn [Str.all] in H. apply andb_true_iff in H. destruct H as [Hc Hp].
  cbn [glob_terms]. unfold glob_term. rewrite Hc. apply matches_mk_seq_cons.
  exists EmptyString, EmptyString. repeat split; [constructor|].
  rewrite after_empty. now apply IH.
Qed.

(** X2: The empty pattern and the patterns made of [*] only match every path,
    line breaks or not: as an exclusion pattern each of them excludes every
    request. *)
Theorem matchesPattern_stars (url pattern : string) :
  stars_only pattern = true -> matchesPattern url pattern = Returns true.
Proof.
  intros H. pose proof (compile_wildcard pattern (stars_are_wildcard _ H)) as Hc.
  rewrite (matchesPattern_compiled _ _ _ Hc). apply returns_true_iff, test_within.
  exists EmptyString, EmptyString, url. split; [reflexivity|].
  now apply stars_match_empty.
Qed.

Lemma matchesPattern_stars_witness :
  matchesPattern "/api/users" "**" = Returns true.
Proof. apply matchesPattern_stars. reflexivity. Defined.






End PatternsMore.

(** ** Filters *)

Section FiltersMore.

Import RegExp Varro Spec Aux.

Lemma includes_In (l : list string) (s : string) :
  includes l s = true <-> In s l.
Proof.
  unfold includes. rewrite existsb_exists. split.
  - intros (x & Hin & He). apply String.eqb_eq in He. now subst.
  - intros H. exists s. split; [assumption | apply String.eqb_refl].
Qed.

Lemma some_true_iff {A : Type} (f : A -> outcome bool) (l : list A) :
  (forall x, In x l -> exists hit, f x = Returns hit) ->
  (some f l = Returns true <-> exists x, In x l /\ f x = Returns true).
Proof.
  induction l as [|y l IH]; intros Hall.
  - cbn. split; [discriminate | now intros (x & [] & _)].
  - cbn [some]. destruct (Hall y (or_introl eq_refl)) as [[|] Hy]; rewrite Hy;
      cbn [bind_outcome].
    + split; [|reflexivity]. intros _. exists y. split; [now left | assumption].
    + rewrite IH by (intros x Hx; apply Hall; now right). split.
      * intros (x & Hx & Hf). exists x. split; [now right | assumption].
      * intros (x & [<-|Hx] & Hf); [congruence|]. now exists x.
Qed.

(** X4: Eligibility, when every configured pattern is a valid regular
    expression: a request is eligible exactly when its method is listed,
    some inclusion pattern is the literal [*] or matches its path, and no
    exclusion pattern matches its path. *)
Theorem matchesFilters_decides (req : request) (flt : filter_config) :
  (forall p, In p (urlPatterns flt) -> p <> "*" ->
             exists hit, matchesPattern (path req) p = Returns hit) ->
  (forall p, In p (excludePatterns flt) ->
             exists hit, matchesPattern (path req) p = Returns hit) ->
  (exists verdict, matchesFilters req flt = Returns verdict)
  /\ (matchesFilters req flt = Returns true <->
      In (method req) (methods flt)
      /\ (exists p, In p (urlPatterns flt)
                    /\ (p = "*" \/ matchesPattern (path req) p = Returns true))
      /\ (forall p, In p (excludePatterns flt) ->
                    matchesPattern (path req) p <> Returns true)).
Proof.
  intros Hurl Hex.
  set (inc := fun p => if String.eqb p "*" then Returns true
                       else matchesPattern (path req) p).
  assert (Hinc : forall p, In p (urlPatterns flt) -> exists hit, inc p = Returns hit).
  { intros p Hp. unfold inc. destruct (String.eqb_spec p "*"); eauto. }
  pose proof (some_true_iff inc _ Hinc) as Hi.
  pose proof (some_true_iff (fun p => matchesPattern (path req) p) _ Hex) as He.
  destruct (some_returns inc _ Hinc) as [i Hsi].
  destruct (some_returns (fun p => matchesPattern (path req) p) _ Hex) as [e Hse].
  assert (Hm : matchesFilters req flt =
               Returns (includes (methods flt) (method req) && i && negb e)).
  { unfold matchesFilters, filters_with. fold inc.
    destruct (includes (methods flt) (method req)); cbn [negb andb]; [|reflexivity].
    rewrite Hsi. cbn [bind_outcome]. destruct i; cbn [negb andb]; [|reflexivity].
    rewrite Hse. reflexivity. }
  rewrite Hm. split; [eauto|]. rewrite returns_true_iff, !andb_true_iff.
  rewrite includes_In, negb_true_iff. rewrite Hsi in Hi. rewrite Hse in He.
  rewrite returns_true_iff in Hi.
  split.
  - intros [[H1 H2] H3]. split; [assumption|]. split.
    + apply Hi in H2. destruct H2 as (p & Hp & Hf). exists p. split; [assumption|].
      unfold inc in Hf. destruct (String.eqb_spec p "*"); auto.
    + intros p Hp Hf. subst e.
      assert (Returns false = Returns true) as C by (apply He; now exists p).
      discriminate C.
  - intros (H1 & (p & Hp & Hf) & H3). repeat split; [assumption| |].
    + apply Hi. exists p. split; [assumption|]. unfold inc.
      destruct (String.eqb_spec p "*"); [reflexivity|]. destruct Hf; [contradiction|assumption].
    + destruct e; [|reflexivity]. exfalso.
      destruct (proj1 He eq_refl) as (p' & Hp' & Hf'). now apply (H3 p').
Qed.

Lemma matchesFilters_decides_witness :
  (exists verdict,
      matchesFilters (mkRequest "GET" "/api/users" "/api/users" [] [] None)
                     (mkFilters ["GET"] ["/api/*"] ["/api/health"]) = Returns verdict)
  /\ (matchesFilters (mkRequest "GET" "/api/users" "/api/users" [] [] None)
                     (mkFilters ["GET"] ["/api/*"] ["/api/health"]) = Returns true <->
      In "GET" ["GET"]
      /\ (exists p, In p ["/api/*"]
                    /\ (p = "*" \/ matchesPattern "/api/users" p = Returns true))
      /\ (forall p, In p ["/api/health"] ->
                    matchesPattern "/api/users" p <> Returns true)).
Proof.
  apply (matchesFilters_decides
           (mkRequest "GET" "/api/users" "/api/users" [] [] None)
           (mkFilters ["GET"] ["/api/*"] ["/api/health"])).
  - intros p [<-|[]] _. now exists true.
  - intros p [<-|[]]. now exists false.
Defined.

Lemma some_all_false {A : Type} (f : A -> outcome bool) (l : list A) :
  (forall x, In x l -> f x = Returns false) -> some f l = Returns false.
Proof.
  induction l as [|y l IH]; intros H; [reflexivity|]. cbn [some].
  rewrite (H y (or_introl eq_refl)). cbn [bind_outcome].
  apply IH. intros x Hx. apply H. now right.
Qed.

(** X5: A request is rejected before any exclusion pattern is compiled when
    its method is not listed, or when no inclusion pattern accepts its path
    (in particular when the list of inclusion patterns is empty): the answer
    is false whatever the exclusion patterns are, malformed ones included;
    an unlisted method does not even compile the inclusion patterns. *)
Theorem matchesFilters_rejects_early (req : request) (flt : filter_config) :
  includes (methods flt) (method req) = false
  \/ (forall p, In p (urlPatterns flt) ->
                p <> "*" /\ matchesPattern (path req) p = Returns false) ->
  matchesFilters req flt = Returns false.
Proof.
  intros [H|H]; unfold matchesFilters, filters_with.
  - now rewrite H.
  - destruct (includes (methods flt) (method req)); cbn [negb]; [|reflexivity].
    rewrite some_all_false; [reflexivity|].
    intros p Hp. destruct (H p Hp) as [Hne Hf].
    destruct (String.eqb_spec p "*"); [contradiction | assumption].
Qed.

Lemma matchesFilters_rejects_early_witness :
  matchesFilters (mkRequest "GET" "/api/users" "/api/users" [] [] None)
                 (mkFilters ["GET"] [] ["("]) = Returns false.
Proof.
  apply matchesFilters_rejects_early. right. intros p [].
Defined.

End FiltersMore.

(** ** Keys *)

Section KeysMore.

Import JSON Varro Spec Aux.

Lemma toLowerCase_app (a b : string) :
  Str.toLowerCase (a ++ b) = Str.toLowerCase a ++ Str.toLowerCase b.
Proof. induction a as [|c a IH]; [reflexivity|]. cbn. now rewrite IH. Qed.

Lemma lower_char_idempotent (c : ascii) :
  Str.lower_char (Str.lower_char c) = Str.lower_char c.
Proof. destruct c as [[] [] [] [] [] [] [] []]; reflexivity. Qed.

Lemma toLowerCase_idempotent (s : string) :
  Str.toLowerCase (Str.toLowerCase s) = Str.toLowerCase s.
Proof.
  induction s as [|c s IH]; [reflexivity|]. cbn.
  now rewrite lower_char_idempotent, IH.
Qed.

Lemma headers_step_relevant (m : matching_config) (req req' : request) :
  (includeHeaders m = true -> relevant (headers req) = relevant (headers req')) ->
  headers_step m req = headers_step m req'.
Proof.
  unfold headers_step, relevant. destruct (includeHeaders m); [|reflexivity].
  intros H. now rewrite (H eq_refl).
Qed.

(** X6: The key reads a part of the request only when the matching
    configuration asks for it: two requests with the same method and path
    get the same key as soon as they agree on the query when [includeQuery]
    holds, on the headers other than host, user-agent and accept-encoding
    when [includeHeaders] holds, and on the body when [includeBody] holds. *)
Theorem generateRequestKey_reads_enabled_parts (m : matching_config) (req req' : request) :
  method req = method req' ->
  path req = path req' ->
  (includeQuery m = true -> query req = query req') ->
  (includeHeaders m = true -> relevant (headers req) = relevant (headers req')) ->
  (includeBody m = true -> body req = body req') ->
  generateRequestKey m req = generateRequestKey m req'.
Proof.
  intros Hm Hp Hq Hh Hb. rewrite !generateRequestKey_decomposed. f_equal.
  rewrite Hm, Hp. f_equal.
  assert (query_step m req = query_step m req') as ->.
  { unfold query_step. destruct (includeQuery m).
    - now rewrite (Hq eq_refl).
    - destruct (query req), (query req'); reflexivity. }
  rewrite (headers_step_relevant m req req' Hh). do 2 f_equal.
  unfold body_step. destruct (includeBody m).
  - now rewrite (Hb eq_refl).
  - cbn [andb]. destruct (body req), (body req'); reflexivity.
Qed.

Lemma generateRequestKey_reads_enabled_parts_witness :
  generateRequestKey (mkMatching true true false false)
    (mkRequest "GET" "/a?x=1" "/a" [("x", JStr "1")]
               [("Host", "one"); ("accept", "text/html")] (Some (JStr "first")))
  = generateRequestKey (mkMatching true true false false)
      (mkRequest "GET" "/a?x=1" "/a" [("x", JStr "1")]
                 [("accept", "text/html"); ("User-Agent", "curl")] None).
Proof.
  apply generateRequestKey_reads_enabled_parts;
    try reflexivity; intros H; try reflexivity; discriminate H.
Defined.

(** X7: When matching is not case-sensitive, requests whose methods and paths
    differ only by letter case get the same key, and the key is in lower
    case: lower-casing it again changes nothing. *)
Theorem generateRequestKey_folds_case (m : matching_config) (req req' : request) :
  caseSensitive m = false ->
  Str.toLowerCase (method req) = Str.toLowerCase (method req') ->
  Str.toLowerCase (path req) = Str.toLowerCase (path req') ->
  query req = query req' -> headers req = headers req' -> body req = body req' ->
  generateRequestKey m req = generateRequestKey m req'
  /\ Str.toLowerCase (generateRequestKey m req) = generateRequestKey m req.
Proof.
  intros Hc Hm Hp Hq Hh Hb. rewrite !generateRequestKey_decomposed.
  assert (query_step m req = query_step m req') as Eq
      by (unfold query_step; now rewrite Hq).
  assert (headers_step m req = headers_step m req') as Eh
      by (unfold headers_step; now rewrite Hh).
  assert (body_step m req = body_step m req') as Eb
      by (unfold body_step; now rewrite Hb).
  rewrite Eq, Eh, Eb.
  unfold case_step. rewrite Hc. split; [|apply toLowerCase_idempotent].
  now rewrite !toLowerCase_app, Hm, Hp.
Qed.

Lemma generateRequestKey_folds_case_witness :
  generateRequestKey (mkMatching true false false false)
    (mkRequest "GET" "/API/Users" "/API/Users" [] [] None)
  = generateRequestKey (mkMatching true false false false)
      (mkRequest "get" "/api/users" "/api/users" [] [] None)
  /\ Str.toLowerCase
       (generateRequestKey (mkMatching true false false false)
          (mkRequest "GET" "/API/Users" "/API/Users" [] [] None))
     = generateRequestKey (mkMatching true false false false)
         (mkRequest "GET" "/API/Users" "/API/Users" [] [] None).
Proof. apply generateRequestKey_folds_case; reflexivity. Defined.

(** *** The order of the headers *)

Lemma code_injective (x y : ascii) : Str.code x = Str.code y -> x = y.
Proof.
  unfold Str.code. intros H.
  rewrite <- (ascii_nat_embedding x), <- (ascii_nat_embedding y). now rewrite H.
Qed.

Lemma ltb_asym (a : string) : forall b, Str.ltb a b = true -> Str.ltb b a = false.
Proof.
  induction a as [|x a IH]; intros [|y b]; cbn [Str.ltb]; try congruence.
  destruct (Nat.ltb_spec (Str.code x) (Str.code y)),
           (Nat.ltb_spec (Str.code y) (Str.code x)); try lia; try congruence.
  apply IH.
Qed.

Lemma ltb_antisym (a : string) :
  forall b, Str.ltb a b = false -> Str.ltb b a = false -> a = b.
Proof.
  induction a as [|x a IH]; intros [|y b]; cbn [Str.ltb]; try congruence.
  destruct (Nat.ltb_spec (Str.code x) (Str.code y)),
           (Nat.ltb_spec (Str.code y) (Str.code x)); try lia; try congruence.
  intros H1 H2. assert (x = y) as -> by (apply code_injective; lia).
  now rewrite (IH b H1 H2).
Qed.

Lemma geb_trans (a : string) :
  forall b c, Str.ltb b a = false -> Str.ltb c b = false -> Str.ltb c a = false.
Proof.
  induction a as [|x a IH]; intros [|y b] [|z c]; cbn [Str.ltb]; try congruence.
  destruct (Nat.ltb_spec (Str.code y) (Str.code x)),
           (Nat.ltb_spec (Str.code x) (Str.code y)),
           (Nat.ltb_spec (Str.code z) (Str.code y)),
           (Nat.ltb_spec (Str.code y) (Str.code z)),
           (Nat.ltb_spec (Str.code z) (Str.code x)),
           (Nat.ltb_spec (Str.code x) (Str.code z));
    try lia; try congruence.
  apply IH.
Qed.

Lemma insert_entry_perm (e : string * string) (l : list (string * string)) :
  Permutation (e :: l) (insert_entry e l).
Proof.
  induction l as [|x l IH]; [apply Permutation_refl|]. cbn [insert_entry].
  destruct (Str.ltb (entry_text x) (entry_text e)); [|apply Permutation_refl].
  apply (Permutation_trans (perm_swap x e l)). now apply perm_skip.
Qed.

Lemma sort_entries_perm (l : list (string * string)) : Permutation l (sort_entries l).
Proof.
  induction l as [|x l IH]; [constructor|]. cbn [sort_entries List.fold_right].
  apply (Permutation_trans (perm_skip x IH)). apply insert_entry_perm.
Qed.

Lemma insert_entry_sorted (e : string * string) (l : list (string * string)) :
  StronglySorted precedes l -> StronglySorted precedes (insert_entry e l).
Proof.
  induction 1 as [|x l Hs IH Hx]; cbn [insert_entry].
  - repeat constructor.
  - destruct (Str.ltb (entry_text x) (entry_text e)) eqn:E.
    + constructor; [assumption|].
      apply (Permutation_Forall (insert_entry_perm e l)). constructor; [|assumption].
      unfold precedes. now apply ltb_asym.
    + constructor; [now constructor|]. constructor; [exact E|].
      apply (Forall_impl (precedes e)
               (fun y (Hy : precedes x y) =>
                  geb_trans (entry_text e) (entry_text x) (entry_text y) E Hy) Hx).
Qed.

Lemma sort_entries_sorted (l : list (string * string)) :
  StronglySorted precedes (sort_entries l).
Proof.
  induction l as [|x l IH]; [constructor|].
  cbn [sort_entries List.fold_right]. now apply insert_entry_sorted.
Qed.

Lemma sorted_unique (l1 : list (string * string)) :
  forall l2,
    StronglySorted precedes l1 -> StronglySorted precedes l2 ->
    Permutation l1 l2 ->
    (forall a b, In a l1 -> In b l1 -> entry_text a = entry_text b -> a = b) ->
    l1 = l2.
Proof.
  induction l1 as [|x l1 IH]; intros l2 H1 H2 Hp Hinj.
  - now apply Permutation_nil in Hp.
  - destruct l2 as [|y l2]; [apply Permutation_sym, Permutation_nil in Hp; discriminate|].
    inversion H1 as [|? ? Hs1 Hx]; subst. inversion H2 as [|? ? Hs2 Hy]; subst.
    assert (x = y) as ->.
    { assert (In y (x :: l1)) as Hy1
          by (apply (Permutation_in _ (Permutation_sym Hp)); now left).
      assert (In x (y :: l2)) as Hx2 by (apply (Permutation_in _ Hp); now left).
      destruct Hy1 as [->|Hy1]; [reflexivity|].
      destruct Hx2 as [->|Hx2]; [reflexivity|].
      rewrite Forall_forall in Hx, Hy. specialize (Hx y Hy1). specialize (Hy x Hx2).
      apply Hinj; [now left | now right |]. now apply ltb_antisym. }
    f_equal. apply IH; auto.
    + now apply Permutation_cons_inv in Hp.
    + intros a b Ha Hb. apply Hinj; now right.
Qed.

Lemma entry_text_injective (a b : string * string) :
  Str.mem "," (fst a) = false -> Str.mem "," (fst b) = false ->
  entry_text a = entry_text b -> a = b.
Proof.
  destruct a as [k v], b as [k' v']. unfold entry_text. cbn [fst snd].
  revert k'. induction k as [|c k IH]; intros [|c' k'] Hk Hk' E; cbn in *.
  - injection E as ->. reflexivity.
  - injection E as <- _. apply orb_false_iff in Hk'. destruct Hk' as [C _].
    discriminate C.
  - injection E as -> _. apply orb_false_iff in Hk. destruct Hk as [C _].
    discriminate C.
  - injection E as -> E. apply orb_false_iff in Hk. apply orb_false_iff in Hk'.
    destruct Hk as [_ Hk]. destruct Hk' as [_ Hk'].
    specialize (IH k' Hk Hk' E). now injection IH as -> ->.
Qed.

(** X8: The key does not depend on the order in which the headers arrive:
    when the headers that enter the key are the same up to their order, and
    no header name contains a comma (no HTTP header name does), the keys are
    equal. *)
Theorem generateRequestKey_header_order (m : matching_config) (req req' : request) :
  method req = method req' -> path req = path req' ->
  query req = query req' -> body req = body req' ->
  Permutation (relevant (headers req)) (relevant (headers req')) ->
  (forall kv, In kv (headers req) -> Str.mem "," (fst kv) = false) ->
  generateRequestKey m req = generateRequestKey m req'.
Proof.
  intros Hm Hp Hq Hb Hperm Hcomma. rewrite !generateRequestKey_decomposed.
  f_equal. rewrite Hm, Hp. f_equal.
  assert (query_step m req = query_step m req') as ->
      by (unfold query_step; now rewrite Hq).
  assert (body_step m req = body_step m req') as ->
      by (unfold body_step; now rewrite Hb).
  do 2 f_equal. unfold headers_step. fold (relevant (headers req)).
  fold (relevant (headers req')).
  assert (sort_entries (relevant (headers req)) = sort_entries (relevant (headers req')))
    as ->; [|reflexivity].
  assert (Hrel : forall kv, In kv (relevant (headers req)) -> Str.mem "," (fst kv) = false).
  { intros kv Hin. apply Hcomma. unfold relevant in Hin.
    now apply List.filter_In in Hin. }
  apply sorted_unique; try apply sort_entries_sorted.
  - apply (Permutation_trans (Permutation_sym (sort_entries_perm _))).
    apply (Permutation_trans Hperm). apply sort_entries_perm.
  - intros a b Ha Hb' E.
    apply (Permutation_in _ (Permutation_sym (sort_entries_perm _))) in Ha.
    apply (Permutation_in _ (Permutation_sym (sort_entries_perm _))) in Hb'.
    apply entry_text_injective; auto.
Qed.

Lemma generateRequestKey_header_order_witness :
  generateRequestKey (mkMatching true true false true)
    (mkRequest "GET" "/a" "/a" [] [("x-b", "2"); ("accept", "text/html")] None)
  = generateRequestKey (mkMatching true true false true)
      (mkRequest "GET" "/a" "/a" [] [("accept", "text/html"); ("x-b", "2")] None).
Proof.
  apply generateRequestKey_header_order; try reflexivity.
  - apply perm_swap.
  - intros kv [<-|[<-|[]]]; reflexivity.
Defined.

End KeysMore.

(** ** File names *)

Section FilenamesMore.

Import Varro Spec Aux.

Lemma underscore_others_word (p : string) :
  Str.all word_char (underscore_others p) = true.
Proof.
  induction p as [|c p IH]; [reflexivity|]. cbn [underscore_others Str.all].
  rewrite IH, andb_true_r. unfold word_char.
  destruct (Str.is_alnum c) eqn:E; [now rewrite E | reflexivity].
Qed.

Lemma collapse_word (s : string) :
  Str.all word_char s = true -> Str.all word_char (collapse s) = true.
Proof.
  induction s as [|c s IH]; [reflexivity|]. cbn [Str.all collapse]. intros H.
  apply andb_true_iff in H. destruct H as [Hc Hs].
  destruct (Ascii.eqb c "_" && starts_with_underscore s); [now apply IH|].
  cbn [Str.all]. now rewrite Hc, IH.
Qed.

Lemma trim_leading_word (s : string) :
  Str.all word_char s = true -> Str.all word_char (trim_leading s) = true.
Proof.
  induction s as [|c s IH]; [reflexivity|]. cbn [Str.all trim_leading]. intros H.
  destruct (Ascii.eqb c "_"); [|exact H].
  apply andb_true_iff in H. now apply IH.
Qed.

Lemma trim_trailing_word (s : string) :
  Str.all word_char s = true -> Str.all word_char (trim_trailing s) = true.
Proof.
  induction s as [|c s IH]; [reflexivity|]. cbn [Str.all trim_trailing]. intros H.
  apply andb_true_iff in H. destruct H as [Hc Hs].
  destruct (Ascii.eqb c "_" && Str.is_empty (trim_trailing s)); [reflexivity|].
  cbn [Str.all]. now rewrite Hc, IH.
Qed.

Lemma trim_leading_no_run (s : string) :
  no_run s = true -> no_run (trim_leading s) = true.
Proof.
  induction s as [|c s IH]; [reflexivity|]. intros H. cbn [trim_leading].
  destruct (Ascii.eqb c "_"); [|exact H]. apply IH. now apply no_run_tail in H.
Qed.

Lemma starts_trim_trailing (s : string) :
  starts_with_underscore (trim_trailing s) = true -> starts_with_underscore s = true.
Proof.
  destruct s as [|c s]; [discriminate|]. cbn [trim_trailing].
  destruct (Ascii.eqb c "_" && Str.is_empty (trim_trailing s)); [discriminate|].
  exact (fun H => H).
Qed.

Lemma trim_trailing_no_run (s : string) :
  no_run s = true -> no_run (trim_trailing s) = true.
Proof.
  induction s as [|c s IH]; [reflexivity|]. intros H. cbn [no_run] in H.
  apply andb_true_iff in H. destruct H as [H1 H2]. cbn [trim_trailing].
  destruct (Ascii.eqb c "_" && Str.is_empty (trim_trailing s)); [reflexivity|].
  cbn [no_run]. rewrite (IH H2), andb_true_r.
  apply negb_true_iff. apply negb_true_iff in H1.
  destruct (Ascii.eqb c "_"); [|reflexivity]. cbn [andb] in *.
  destruct (starts_with_underscore (trim_trailing s)) eqn:E; [|reflexivity].
  apply starts_trim_trailing in E. congruence.
Qed.

Lemma starts_trim_leading (s : string) :
  starts_with_underscore (trim_leading s) = false.
Proof.
  induction s as [|c s IH]; [reflexivity|]. cbn [trim_leading].
  destruct (Ascii.eqb c "_") eqn:E; [exact IH|]. exact E.
Qed.

Lemma ends_trim_trailing (s : string) :
  ends_with_underscore (trim_trailing s) = false.
Proof.
  induction s as [|c s IH]; [reflexivity|]. cbn [trim_trailing].
  destruct (Ascii.eqb c "_") eqn:E; cbn [andb].
  - destruct (trim_trailing s) as [|d t] eqn:T; [reflexivity|]. cbn [Str.is_empty].
    exact IH.
  - destruct (trim_trailing s) as [|d t] eqn:T; [cbn; exact E|]. exact IH.
Qed.

Lemma word_without_slash (s : string) :
  Str.all word_char s = true -> Str.mem "/" s = false.
Proof.
  induction s as [|c s IH]; [reflexivity|]. cbn [Str.all Str.mem]. intros H.
  apply andb_true_iff in H. destruct H as [Hc Hs]. rewrite (IH Hs), orb_false_r.
  destruct (Ascii.eqb_spec "/"%char c) as [<-|]; [discriminate Hc | reflexivity].
Qed.

Lemma url_part_shape (p : string) :
  Str.all word_char (url_part p) = true
  /\ starts_with_underscore (url_part p) = false
  /\ ends_with_underscore (url_part p) = false
  /\ no_run (url_part p) = true.
Proof.
  unfold url_part. repeat split.
  - apply trim_trailing_word, trim_leading_word, collapse_word, underscore_others_word.
  - destruct (starts_with_underscore (trim_trailing _)) eqn:E; [|reflexivity].
    apply starts_trim_trailing in E. now rewrite starts_trim_leading in E.
  - apply ends_trim_trailing.
  - apply trim_trailing_no_run, trim_leading_no_run, no_run_collapse.
Qed.

(** X10: The url part of a file name is made of letters, digits and single
    underscores only, and neither starts nor ends with an underscore: it
    never holds a path separator, a dot or a placeholder brace, whatever the
    request path is. *)
Theorem sanitize_shape (p : string) :
  Str.all word_char (sanitize p) = true
  /\ starts_with_underscore (sanitize p) = false
  /\ ends_with_underscore (sanitize p) = false
  /\ no_run (sanitize p) = true
  /\ Str.mem "/" (sanitize p) = false.
Proof.
  rewrite sanitize_url_part. destruct (url_part_shape p) as (H1 & H2 & H3 & H4).
  repeat split; auto. now apply word_without_slash.
Qed.

Lemma underscore_others_fixed (s : string) :
  Str.all word_char s = true -> underscore_others s = s.
Proof.
  induction s as [|c s IH]; [reflexivity|]. cbn [Str.all underscore_others].
  intros H. apply andb_true_iff in H. destruct H as [Hc Hs]. rewrite (IH Hs).
  unfold word_char in Hc. destruct (Str.is_alnum c); [reflexivity|].
  cbn [orb] in Hc. apply Ascii.eqb_eq in Hc. now subst c.
Qed.

Lemma collapse_fixed (s : string) : no_run s = true -> collapse s = s.
Proof.
  induction s as [|c s IH]; [reflexivity|]. cbn [no_run collapse]. intros H.
  apply andb_true_iff in H. destruct H as [H1 H2]. apply negb_true_iff in H1.
  now rewrite H1, (IH H2).
Qed.

Lemma trim_leading_fixed (s : string) :
  starts_with_underscore s = false -> trim_leading s = s.
Proof. destruct s as [|c s]; [reflexivity|]. cbn. now intros ->. Qed.

Lemma trim_trailing_fixed (s : string) :
  ends_with_underscore s = false -> trim_trailing s = s.
Proof.
  induction s as [|c s IH]; [reflexivity|]. intros H. cbn [trim_trailing].
  destruct s as [|d s].
  - cbn in *. now rewrite H.
  - change (ends_with_underscore (String c (String d s)))
      with (ends_with_underscore (String d s)) in H.
    rewrite (IH H). cbn [Str.is_empty]. now rewrite andb_false_r.
Qed.

(** X11: Sanitizing is idempotent: a url part that is sanitized again is
    unchanged. *)
Theorem sanitize_idempotent (p : string) : sanitize (sanitize p) = sanitize p.
Proof.
  destruct (url_part_shape p) as (H1 & H2 & H3 & H4).
  rewrite <- sanitize_url_part in H1, H2, H3, H4.
  rewrite (sanitize_url_part (sanitize p)). unfold url_part.
  now rewrite underscore_others_fixed, collapse_fixed, trim_leading_fixed,
    trim_trailing_fixed.
Qed.

Lemma replace_not_occurring (needle template : string) (s : string) :
  forall fuel before,
    length s < fuel ->
    occurs needle s = false ->
    Replace.replace_from fuel needle template before s = s.
Proof.
  induction s as [|c s IH]; intros fuel before Hf Ho;
    (destruct fuel as [|fuel]; [inversion Hf|]); cbn [Replace.replace_from];
    cbn [occurs] in Ho; destruct (Str.strip_prefix needle _); try discriminate.
  - reflexivity.
  - simpl in Hf. rewrite IH by (auto; lia). reflexivity.
Qed.

Lemma replace_all_not_occurring (needle template s : string) :
  occurs needle s = false -> Replace.replace_all needle template s = s.
Proof. intros H. unfold Replace.replace_all. apply replace_not_occurring; [lia|exact H]. Qed.

(** X12: A naming pattern in which none of the five placeholders occurs is used
    verbatim, other text in braces included: the file name is the pattern
    itself for every request, clock reading and counter value, so every
    recording goes to the same file. *)
Theorem render_verbatim (pattern : string) (req : request) (now : Z) (count : nat) :
  occurs "{method}" pattern = false ->
  occurs "{url}" pattern = false ->
  occurs "{date}" pattern = false ->
  occurs "{timestamp}" pattern = false ->
  occurs "{counter}" pattern = false ->
  render pattern req now count = pattern.
Proof.
  intros H1 H2 H3 H4 H5. unfold render.
  now rewrite (replace_all_not_occurring _ _ _ H1), (replace_all_not_occurring _ _ _ H2),
    (replace_all_not_occurring _ _ _ H3), (replace_all_not_occurring _ _ _ H4),
    (replace_all_not_occurring _ _ _ H5).
Qed.

Lemma render_verbatim_witness :
  render "recording_{id}" (mkRequest "GET" "/a" "/a" [] [] None) 1703123456789 3
  = "recording_{id}".
Proof. apply render_verbatim; reflexivity. Defined.

End FilenamesMore.

(** ** The store *)

Section StoreMore.

Import JSON Varro Spec Aux.

Variable cfg : config.








Lemma load_printed (name : string) (st : state) :
  exists lines, snd (load cfg name st) = printed st lines.
Proof.
  unfold load. destruct (listing st) as [entries|].
  - destruct (lookup_file name entries) as [[value|raw]|];
      try (exists []; cbn [snd]; now rewrite printed_nil); eexists; reflexivity.
  - eexists; reflexivity.
Qed.

Lemma mapM_load_printed (names : list string) :
  forall st, exists lines, snd (mapM (load cfg) names st) = printed st lines.
Proof.
  induction names as [|n names IH]; intros st.
  - exists []. cbn. now rewrite printed_nil.
  - cbn [mapM]. unfold bind at 1. destruct (load_printed n st) as [l1 H1].
    destruct (load cfg n st) as [v st1]. cbn [snd] in H1. subst st1.
    unfold bind at 1. destruct (IH (printed st l1)) as [l2 H2].
    destruct (mapM (load cfg) names (printed st l1)) as [vs st2]. cbn [snd ret] in *.
    subst st2. exists (l1 ++ l2)%list. apply printed_app.
Qed.

Lemma mapM_load_sources (names : list string) :
  forall st entries v,
    listing st = Some entries ->
    In v (List.filter truthy (fst (mapM (load cfg) names st))) ->
    exists name, In name names /\ lookup_file name entries = Some (Document v).
Proof.
  induction names as [|n names IH]; intros st entries v Hl Hin; [contradiction|].
  cbn [mapM] in Hin. unfold bind at 1 in Hin.
  pose proof (load_same_store cfg n st) as (_ & Hl1 & _).
  assert (Hload : fst (load cfg n st) = JNull
                  \/ lookup_file n entries = Some (Document (fst (load cfg n st)))).
  { unfold load. rewrite Hl. destruct (lookup_file n entries) as [[value|raw]|];
      cbn; auto. }
  destruct (load cfg n st) as [v1 st1]. cbn [fst snd] in *.
  unfold bind at 1 in Hin.
  assert (Hl1' : listing st1 = Some entries) by congruence.
  specialize (IH st1 entries v Hl1').
  destruct (mapM (load cfg) names st1) as [vs st2]. cbn [fst ret List.filter] in *.
  destruct (truthy v1) eqn:T.
  - destruct Hin as [<-|Hin].
    + destruct Hload as [->|Hload]; [discriminate T|]. exists n. split; [now left|assumption].
    + destruct (IH Hin) as (name & Hn & Hf). exists name. split; [now right|assumption].
  - destruct (IH Hin) as (name & Hn & Hf). exists name. split; [now right|assumption].
Qed.

Lemma getRecordings_printed (st : state) :
  exists lines, snd (getRecordings cfg st) = printed st lines.
Proof.
  unfold getRecordings. destruct (listing st) as [entries|]; [|eexists; reflexivity].
  unfold bind.
  destruct (mapM_load_printed
              (List.filter (fun name => Str.endsWith name ".json")
                           (List.map fst entries)) st) as [lines H].
  destruct (mapM _ _ st) as [vs st1]. now exists lines.
Qed.

Lemma getRecordings_sources (st : state) (entries : list (string * file)) (v : json) :
  listing st = Some entries ->
  In v (fst (getRecordings cfg st)) ->
  truthy v = true
  /\ exists name,
       Str.endsWith name ".json" = true
       /\ lookup_file name entries = Some (Document v).
Proof.
  intros Hl Hin. unfold getRecordings in Hin. rewrite Hl in Hin.
  unfold bind in Hin.
  pose proof (mapM_load_sources
                (List.filter (fun name => Str.endsWith name ".json")
                             (List.map fst entries)) st entries v Hl) as Hs.
  destruct (mapM _ _ st) as [vs st1]. cbn [fst ret] in *. split.
  - now apply List.filter_In in Hin.
  - destruct (Hs Hin) as (name & Hn & Hf). exists name. split; [|assumption].
    now apply List.filter_In in Hn.
Qed.

(** X16: Scanning reads and never writes: [getRecordings] changes nothing in the
    state but the console, to which it only adds lines; every value it
    returns is truthy and is the document of a [*.json] file of the
    directory; and over a directory that cannot be read it returns the empty
    list after one warning. *)
Theorem getRecordings_reads_only (st : state) :
  (exists lines, snd (getRecordings cfg st) = printed st lines)
  /\ (forall entries v,
        listing st = Some entries ->
        In v (fst (getRecordings cfg st)) ->
        truthy v = true
        /\ exists name,
             Str.endsWith name ".json" = true
             /\ lookup_file name entries = Some (Document v))
  /\ (listing st = None ->
      getRecordings cfg st = ([], printed st [WarnCouldNotReadDirectory])).
Proof.
  split; [apply getRecordings_printed|]. split; [apply getRecordings_sources|].
  intros Hl. unfold getRecordings. now rewrite Hl.
Qed.

End StoreMore.

(** ** Lookup *)

Section LookupMore.

Import JSON Varro Spec Aux.

Variable cfg : config.

Lemma findRecording_miss (now : Z) (req : request) (st : state) :
  List.find (has_key (generateRequestKey (matching cfg) req)) (fst (getRecordings cfg st))
  = None ->
  findRecording cfg now req st =
  match fallback_file cfg now req st with
  | Some (Document value) =>
      (value, mkState (S (counter st)) (listing st) (outside st) (refuses st)
                (lists_before st) (console (snd (getRecordings cfg st))))
  | Some (Malformed _) =>
      (JNull, mkState (S (counter st)) (listing st) (outside st) (refuses st)
                (lists_before st)
                (console (snd (getRecordings cfg st))
                 ++ [WarnCouldNotLoad
                       (path_join (recordingsDir cfg)
                          (render (namingPattern cfg) req now (S (counter st)) ++ ".json"))]))
  | None =>
      (JNull, mkState (S (counter st)) (listing st) (outside st) (refuses st)
                (lists_before st) (console (snd (getRecordings cfg st))))
  end.
Proof.
  intros Hf. unfold findRecording, fallback_file. unfold bind at 1.
  destruct (getRecordings_printed cfg st) as [lines Hp].
  destruct (getRecordings cfg st) as [recordings st1]. cbn [fst snd] in *. subst st1.
  rewrite Hf.
  unfold generateFilename, increment_counter, existsSync, bind, ret, print, printed.
  cbn [counter listing refuses console outside lists_before].
  assert (Hc : forall name count lines',
             consult (recordingsDir cfg) name
               (mkState count (listing st) (outside st) (refuses st) (lists_before st)
                        lines')
             = consult (recordingsDir cfg) name st) by reflexivity.
  rewrite !Hc.
  destruct (consult _ _ st) as [[value|raw]|] eqn:Hk; cbv beta; rewrite ?Hc, ?Hk;
    reflexivity.
Qed.

(** A file that [consult] finds is a file of the directory or of another
    place. *)
Lemma consult_source (dir name : string) (st : state) (f : file) :
  consult dir name st = Some f ->
  (exists entries entry,
      listing st = Some entries
      /\ Path.target dir name = Path.Entry entry
      /\ lookup_file entry entries = Some f)
  \/ (exists place, Path.target dir name = Path.Elsewhere place
                    /\ outside st place = Some f).
Proof.
  unfold consult. destruct (has_nul _); [discriminate|].
  destruct (Path.target dir name) as [entry|place].
  - destruct (listing st) as [entries|]; [|discriminate]. intros H. left.
    now exists entries, entry.
  - intros H. right. now exists place.
Qed.

(** X17: A lookup never writes: [findRecording] leaves the directory, the files
    in it and the files of every other place as they are, and only adds
    lines to the console.  What it returns is [null], or the document of a
    [*.json] file of the directory, or the document of the file that the
    rendered name designates, in the directory or, when the naming pattern
    leads out of it, elsewhere. *)
Theorem findRecording_reads_only (now : Z) (req : request) (st : state) :
  listing (snd (findRecording cfg now req st)) = listing st
  /\ outside (snd (findRecording cfg now req st)) = outside st
  /\ refuses (snd (findRecording cfg now req st)) = refuses st
  /\ (exists lines,
        console (snd (findRecording cfg now req st)) = (console st ++ lines)%list)
  /\ (fst (findRecording cfg now req st) = JNull
      \/ (exists entries name,
            listing st = Some entries
            /\ Str.endsWith name ".json" = true
            /\ lookup_file name entries
               = Some (Document (fst (findRecording cfg now req st))))
      \/ (exists place,
            Path.target (recordingsDir cfg)
                        (render (namingPattern cfg) req now (S (counter st)) ++ ".json")
            = Path.Elsewhere place
            /\ outside st place = Some (Document (fst (findRecording cfg now req st))))).
Proof.
  destruct (getRecordings_printed cfg st) as [lines Hp].
  destruct (List.find (has_key (generateRequestKey (matching cfg) req))
                      (fst (getRecordings cfg st))) as [v|] eqn:Hf.
  - rewrite (findRecording_hit cfg now req st v Hf). cbn [fst snd]. rewrite Hp.
    repeat split; [now exists lines|]. right. left.
    apply List.find_some in Hf. destruct Hf as [Hin _].
    destruct (listing st) as [entries|] eqn:Hl.
    + destruct (getRecordings_sources cfg st entries v Hl Hin) as (_ & name & He & Hk).
      now exists entries, name.
    + unfold getRecordings in Hin. rewrite Hl in Hin. contradiction Hin.
  - rewrite (findRecording_miss now req st Hf). rewrite Hp.
    destruct (fallback_file cfg now req st) as [[value|raw]|] eqn:Hk;
      cbn [fst snd listing outside refuses console printed].
    + repeat split; [now exists lines|]. right.
      destruct (consult_source _ _ _ _ Hk)
        as [(entries & entry & Hl & Ht & Hlk)|(place & Ht & Ho)].
      * left. exists entries, entry. repeat split; auto.
        exact (target_entry_suffix _ _ _ Ht).
      * right. now exists place.
    + repeat split; [|now left]. eexists. now rewrite <- List.app_assoc.
    + repeat split; [now exists lines | now left].
Qed.



End LookupMore.

(** ** Handlers *)

Section HandlersMore.

Import JSON Varro Spec Aux Handlers.

Variable JSON_parse : string -> option json.
Variable cfg : config.

Lemma filter_next_headers (l : list (string * json)) :
  List.filter is_next (List.map (fun kv => SetHeader (fst kv) (snd kv)) l) = [].
Proof. induction l as [|x l IH]; [reflexivity | exact IH]. Qed.

Lemma replay_answers (recording : json) (actions : list action) :
  replay JSON_parse recording = Normal actions ->
  exists code rest,
    actions = Status code :: rest /\ List.filter is_next rest = [].
Proof.
  unfold replay. destruct (get recording "response") as [response|]; [|discriminate].
  assert (forall hs body,
             List.filter is_next body = [] ->
             List.filter is_next
               (List.map (fun kv => SetHeader (fst kv) (snd kv)) hs ++ body) = []) as Hf.
  { intros hs body Hb. now rewrite List.filter_app, filter_next_headers, Hb. }
  assert (List.filter is_next
            match get response "body" with
            | Some b =>
                if truthy b then
                  match JSON_parse (ToString b) with
                  | Some value => [Json (Value value)]
                  | None => [Send (Value b)]
                  end
                else [End]
            | None => [End]
            end = []) as Hb.
  { destruct (get response "body") as [b|]; [|reflexivity].
    destruct (truthy b); [|reflexivity].
    destruct (JSON_parse (ToString b)); reflexivity. }
  destruct response; try discriminate; cbv zeta; intros H; injection H as <-;
    eexists; eexists; (split; [reflexivity|]);
    first [reflexivity | apply Hf; exact Hb].
Qed.

Lemma replayRequest_answers_or_passes_helper (now : Z) (req : request) (st : state)
      (actions : list action) :
  fst (replayRequest JSON_parse cfg now req st) = Normal actions ->
  actions = [Next]
  \/ exists code rest, actions = Status code :: rest /\ List.filter is_next rest = [].
Proof.
  unfold replayRequest. destruct (shouldReplay cfg req) as [[|]| |]; cbn [fst];
    try discriminate.
  - destruct (findRecording cfg now req st) as [recording st'].
    destruct (truthy recording); cbn [fst].
    + intros H. right. now apply replay_answers in H.
    + intros H. injection H as <-. now left.
  - intros H. injection H as <-. now left.
Qed.

(** X20: Replay either hands the request to the downstream handler and does
    nothing else, or answers it and never calls the downstream handler: a
    normal return of [replayRequest] is the single call [next()], or starts
    with [res.status] and holds no call of [next]. *)
Theorem replayRequest_answers_or_passes (now : Z) (req : request) (st : state)
        (actions : list action) :
  fst (replayRequest JSON_parse cfg now req st) = Normal actions ->
  actions = [Next]
  \/ exists code rest, actions = Status code :: rest /\ List.filter is_next rest = [].
Proof. apply replayRequest_answers_or_passes_helper. Qed.


(** X22: A recording without a [response] makes replay throw: when the lookup
    returns a truthy value whose [response] property is missing or [null],
    [replayRequest] ends in a TypeError, before anything is emitted and
    without calling the downstream handler. *)
Theorem replayRequest_without_response (now : Z) (req : request) (st : state) :
  shouldReplay cfg req = Returns true ->
  truthy (fst (findRecording cfg now req st)) = true ->
  get (fst (findRecording cfg now req st)) "response" = None
  \/ get (fst (findRecording cfg now req st)) "response" = Some JNull ->
  fst (replayRequest JSON_parse cfg now req st) = Abrupt TypeError.
Proof.
  intros He Ht Hr. unfold replayRequest. rewrite He.
  destruct (findRecording cfg now req st) as [recording st']. cbn [fst snd] in *.
  rewrite Ht. cbn [fst]. unfold replay. now destruct Hr as [->| ->].
Qed.

Lemma replay_document (r : recording) :
  replay JSON_parse (document r) =
  Normal (Status (Some (JNum (rs_status (rec_response r))))
          :: List.map (fun kv => SetHeader (fst kv) (snd kv)) (rs_headers (rec_response r))
          ++ replayed_body JSON_parse (rs_body (rec_response r)))%list.
Proof.
  unfold replay, document, replayed_body.
  cbn [get lookup String.eqb Ascii.eqb Bool.eqb].
  destruct (persisted (rs_body (rec_response r))) as [b|]; cbn; reflexivity.
Qed.

Lemma replayed_text (text : string) :
  replayed_body JSON_parse (Value (JStr text)) = emitted_body JSON_parse text.
Proof. unfold replayed_body, emitted_body. now destruct text. Qed.

(** X23: Replaying a recording written by [saveRecording] emits, in this order,
    the recorded status, each recorded header, and the recorded body.  A
    body that was a text is emitted as a JSON value when the text parses,
    as the raw text when it does not, and by a bare [res.end()] when the
    text is empty.  A body of another kind is emitted as it was written: a
    Buffer as the object of its bytes, unless [JSON.parse] reads something
    from that object converted to a string, and nothing but [res.end()] for
    a body that was [undefined] or falsy. *)
Theorem replay_saved_recording (stamp : Z) (req : request) (res : response) :
  (forall text : string,
      replay JSON_parse (document (build_recording cfg stamp req res (Value (JStr text)))) =
      Normal (Status (Some (JNum (statusCode res)))
              :: List.map (fun kv => SetHeader (fst kv) (snd kv))
                   (if includeHeaders (matching cfg) then getHeaders res else [])
              ++ emitted_body JSON_parse text)%list)
  /\ (forall responseBody : argument,
        replay JSON_parse (document (build_recording cfg stamp req res responseBody)) =
        Normal (Status (Some (JNum (statusCode res)))
                :: List.map (fun kv => SetHeader (fst kv) (snd kv))
                     (if includeHeaders (matching cfg) then getHeaders res else [])
                ++ replayed_body JSON_parse responseBody)%list).
Proof.
  split.
  - intros text. rewrite <- replayed_text.
    apply (replay_document (build_recording cfg stamp req res (Value (JStr text)))).
  - intros responseBody.
    apply (replay_document (build_recording cfg stamp req res responseBody)).
Qed.





End HandlersMore.

(** ** Instances *)

Section InstancesMore.

Import JSON Varro Spec Aux Handlers.







Lemma replayRequest_answers_or_passes_witness :
  [Status (Some (JNum 200)); Send (Value (JStr "ok"))] = [Next]
  \/ exists code rest,
       [Status (Some (JNum 200)); Send (Value (JStr "ok"))] = Status code :: rest
       /\ List.filter is_next rest = [].
Proof.
  apply (replayRequest_answers_or_passes parse_or_throw defaultConfig 1703123456789
           (mkRequest "GET" "/a" "/a" [] [] None)
           (mkState 0
              (Some [("r.json",
                      Document (JObj [("response", JObj [("status", JNum 200);
                                                         ("body", JStr "ok")]);
                                      ("requestKey", JStr "get:/a")]))])
              (fun _ => None) (fun _ => false) Str.ltb [])).
  vm_compute. reflexivity.
Defined.

Lemma replayRequest_without_response_witness :
  fst (replayRequest parse_or_throw defaultConfig 1703123456789
         (mkRequest "GET" "/a" "/a" [] [] None)
         (mkState 0 (Some [("r.json", Document (JObj [("requestKey", JStr "get:/a")]))])
                  (fun _ => None) (fun _ => false) Str.ltb []))
  = Abrupt TypeError.
Proof.
  apply replayRequest_without_response; [reflexivity | reflexivity | now left].
Defined.


End InstancesMore.

(** ** The query in the key *)

Section QueryMore.

Import JSON Varro Spec Aux.

Lemma concat_cons (x : string) (l : list string) :
  String.concat EmptyString (x :: l) = x ++ String.concat EmptyString l.
Proof. destruct l; cbn; [now rewrite sapp_nil_r | reflexivity]. Qed.

Lemma form_encode_cons (c : ascii) (t : string) :
  Bytes.form_encode (String c t) =
  Bytes.form_encode (String c EmptyString) ++ Bytes.form_encode t.
Proof.
  unfold Bytes.form_encode. cbn [Bytes.utf8].
  destruct (Z.of_nat (Str.code c) <? 128)%Z; cbn [List.map];
    rewrite !concat_cons; cbn [String.concat]; now rewrite ?sapp_nil_r, ?sapp_assoc.
Qed.

Lemma form_decode_char (c : ascii) (rest : string) :
  form_decode (Bytes.form_encode (String c EmptyString) ++ rest)
  = String c (form_decode rest).
Proof. destruct c as [[] [] [] [] [] [] [] []]; reflexivity. Qed.

Lemma form_decode_encode (s : string) : form_decode (Bytes.form_encode s) = s.
Proof.
  induction s as [|c s IH]; [reflexivity|].
  now rewrite form_encode_cons, form_decode_char, IH.
Qed.

Lemma form_encode_injective (a b : string) :
  Bytes.form_encode a = Bytes.form_encode b -> a = b.
Proof.
  intros H. rewrite <- (form_decode_encode a), <- (form_decode_encode b). now rewrite H.
Qed.

Lemma separator_free_app (a b : string) :
  separator_free (a ++ b) = separator_free a && separator_free b.
Proof.
  unfold separator_free. rewrite !mem_app.
  destruct (Str.mem "&" a), (Str.mem "=" a), (Str.mem "&" b), (Str.mem "=" b); reflexivity.
Qed.

Lemma form_encode_separator_free (s : string) :
  separator_free (Bytes.form_encode s) = true.
Proof.
  induction s as [|c s IH]; [reflexivity|].
  rewrite form_encode_cons, separator_free_app, IH, andb_true_r.
  destruct c as [[] [] [] [] [] [] [] []]; reflexivity.
Qed.

Lemma split_at_separator (sep : ascii) (a : string) :
  forall a' b b',
    Str.mem sep a = false -> Str.mem sep a' = false ->
    a ++ String sep b = a' ++ String sep b' -> a = a' /\ b = b'.
Proof.
  induction a as [|c a IH]; intros [|c' a'] b b' Ha Ha' E; cbn in *.
  - injection E as ->. now split.
  - injection E as <- _. apply orb_false_iff in Ha'. destruct Ha' as [C _].
    now rewrite Ascii.eqb_refl in C.
  - injection E as -> _. apply orb_false_iff in Ha. destruct Ha as [C _].
    now rewrite Ascii.eqb_refl in C.
  - injection E as -> E. apply orb_false_iff in Ha. apply orb_false_iff in Ha'.
    destruct Ha as [_ Ha]. destruct Ha' as [_ Ha'].
    destruct (IH a' b b' Ha Ha' E) as [-> ->]. now split.
Qed.

Lemma pair_text_injective (p p' : string * string) :
  pair_text p = pair_text p' -> p = p'.
Proof.
  destruct p as [k v], p' as [k' v']. unfold pair_text. cbn [fst snd]. intros E.
  assert (Hk := form_encode_separator_free k).
  assert (Hk' := form_encode_separator_free k').
  unfold separator_free in Hk, Hk'.
  apply andb_true_iff in Hk. apply andb_true_iff in Hk'.
  destruct Hk as [_ Hk]. destruct Hk' as [_ Hk'].
  apply negb_true_iff in Hk. apply negb_true_iff in Hk'.
  destruct (split_at_separator "=" _ _ _ _ Hk Hk' E) as [E1 E2].
  apply form_encode_injective in E1. apply form_encode_injective in E2. now subst.
Qed.

Lemma pair_text_no_ampersand (p : string * string) : Str.mem "&" (pair_text p) = false.
Proof.
  unfold pair_text. rewrite mem_app. cbn [Str.mem append]. rewrite mem_app || idtac.
  assert (Hk := form_encode_separator_free (fst p)).
  assert (Hv := form_encode_separator_free (snd p)).
  unfold separator_free in Hk, Hv.
  apply andb_true_iff in Hk. apply andb_true_iff in Hv.
  destruct Hk as [Hk _]. destruct Hv as [Hv _].
  apply negb_true_iff in Hk. apply negb_true_iff in Hv.
  now rewrite Hk, Hv.
Qed.

Lemma pair_text_nonempty (p : string * string) : pair_text p <> EmptyString.
Proof. unfold pair_text. destruct (Bytes.form_encode (fst p)); discriminate. Qed.

Lemma join_pairs_injective (l : list (string * string)) :
  forall l',
    Str.join "&" (List.map pair_text l) = Str.join "&" (List.map pair_text l') ->
    l = l'.
Proof.
  induction l as [|p l IH]; intros [|p' l'] E.
  - reflexivity.
  - exfalso. cbn [List.map] in E. destruct (List.map pair_text l') eqn:M.
    + cbn in E. symmetry in E. now apply pair_text_nonempty in E.
    + cbn in E. destruct (pair_text p') eqn:P; [now apply pair_text_nonempty in P|].
      discriminate E.
  - exfalso. cbn [List.map] in E. destruct (List.map pair_text l) eqn:M.
    + cbn in E. now apply pair_text_nonempty in E.
    + cbn in E. destruct (pair_text p) eqn:P; [now apply pair_text_nonempty in P|].
      discriminate E.
  - cbn [List.map] in E.
    destruct l as [|q l], l' as [|q' l'].
    + cbn in E. apply pair_text_injective in E. now subst.
    + exfalso. cbn [List.map] in E.
      change (Str.join "&" [pair_text p]) with (pair_text p) in E.
      change (Str.join "&" (pair_text p' :: pair_text q' :: List.map pair_text l'))
        with (pair_text p' ++ String "&" (Str.join "&" (List.map pair_text (q' :: l'))))
        in E.
      pose proof (pair_text_no_ampersand p) as Hp. rewrite E, mem_app in Hp.
      cbn [Str.mem] in Hp. rewrite Ascii.eqb_refl in Hp.
      now rewrite orb_true_r in Hp.
    + exfalso. cbn [List.map] in E.
      change (Str.join "&" [pair_text p']) with (pair_text p') in E.
      change (Str.join "&" (pair_text p :: pair_text q :: List.map pair_text l))
        with (pair_text p ++ String "&" (Str.join "&" (List.map pair_text (q :: l))))
        in E.
      pose proof (pair_text_no_ampersand p') as Hp. rewrite <- E, mem_app in Hp.
      cbn [Str.mem] in Hp. rewrite Ascii.eqb_refl in Hp.
      now rewrite orb_true_r in Hp.
    + change (Str.join "&" (List.map pair_text (p :: q :: l)))
        with (pair_text p ++ String "&" (Str.join "&" (List.map pair_text (q :: l))))
        in E.
      change (Str.join "&" (List.map pair_text (p' :: q' :: l')))
        with (pair_text p' ++ String "&" (Str.join "&" (List.map pair_text (q' :: l'))))
        in E.
      destruct (split_at_separator "&" _ _ _ _ (pair_text_no_ampersand p)
                  (pair_text_no_ampersand p') E) as [E1 E2].
      apply pair_text_injective in E1. subst p'. f_equal. now apply IH.
Qed.

Lemma app_inv_head_string (a b c : string) : a ++ b = a ++ c -> b = c.
Proof. induction a as [|x a IH]; [auto|]. cbn. intros E. injection E as E. auto. Qed.

Lemma app_inv_tail_string (t : string) :
  forall a b, a ++ t = b ++ t -> a = b.
Proof.
  intros a. induction a as [|x a IH]; intros [|y b] E.
  - reflexivity.
  - exfalso. assert (L := f_equal length E). cbn in L. rewrite slength_app in L. lia.
  - exfalso. assert (L := f_equal length E). cbn in L. rewrite slength_app in L. lia.
  - cbn in E. injection E as -> E. now rewrite (IH b E).
Qed.

Lemma text_query_pairs (q q' : list (string * json)) :
  text_query q -> text_query q' ->
  List.map (fun kv => (fst kv, ToString (snd kv))) q
  = List.map (fun kv => (fst kv, ToString (snd kv))) q' ->
  q = q'.
Proof.
  revert q'. induction q as [|[k v] q IH]; intros [|[k' v'] q'] Hq Hq' E;
    cbn [List.map] in E; try discriminate E; [reflexivity|].
  cbn [List.map fst snd] in E. injection E as -> Ev E.
  destruct (Hq k' v (or_introl eq_refl)) as [s ->].
  destruct (Hq' k' v' (or_introl eq_refl)) as [s' ->].
  cbn in Ev. subst s'. f_equal. apply IH; auto.
  - intros a b Hin. apply (Hq a b). now right.
  - intros a b Hin. apply (Hq' a b). now right.
Qed.

(** X9: With [includeQuery] and case-sensitive matching, the key tells apart
    the queries whose names and values are strings of code units below 256,
    the strings of this development: two requests with the same method,
    path, headers and body and such queries get the same key only when they
    have the same parameters with the same values in the same order.
    Nothing is stated about the other strings; URLSearchParams replaces an
    unpaired surrogate by U+FFFD, so that two of them may share a key. *)
Theorem generateRequestKey_tells_queries_apart (m : matching_config) (req req' : request) :
  includeQuery m = true -> caseSensitive m = true ->
  method req = method req' -> path req = path req' ->
  headers req = headers req' -> body req = body req' ->
  text_query (query req) -> text_query (query req') ->
  generateRequestKey m req = generateRequestKey m req' ->
  query req = query req'.
Proof.
  intros Hi Hc Hm Hp Hh Hb Hq Hq' E. rewrite !generateRequestKey_decomposed in E.
  unfold case_step in E. rewrite Hc in E.
  assert (headers_step m req = headers_step m req') as Eh
      by (unfold headers_step; now rewrite Hh).
  assert (body_step m req = body_step m req') as Eb
      by (unfold body_step; now rewrite Hb).
  rewrite Hm, Hp, Eh, Eb in E. apply app_inv_head_string in E.
  apply (app_inv_tail_string (headers_step m req' ++ body_step m req')) in E.
  unfold query_step in E. rewrite Hi in E.
  apply text_query_pairs; auto.
  assert (forall q : list (string * json),
             List.map (fun kv => pair_text (fst kv, ToString (snd kv))) q
             = List.map pair_text (List.map (fun kv => (fst kv, ToString (snd kv))) q)) as Hmap
      by (intros q; now rewrite List.map_map).
  revert E. destruct (query req) as [|kv q], (query req') as [|kv' q0]; intros E;
    try discriminate E; [reflexivity|].
  apply app_inv_head_string in E. rewrite !Hmap in E.
  now apply join_pairs_injective in E.
Qed.

Lemma generateRequestKey_tells_queries_apart_witness :
  query (mkRequest "GET" "/a?x=1" "/a" [("x", JStr "1")] [] None)
  = query (mkRequest "GET" "/a?x=1&" "/a" [("x", JStr "1")] [] None).
Proof.
  apply (generateRequestKey_tells_queries_apart (mkMatching true false false true));
    try reflexivity; intros k v [E|[]]; injection E as <- <-; now exists "1".
Defined.

End QueryMore.

